(** * h103-reader: the tag capture pipeline of [src/App.tsx]

    A shallow embedding of the capture logic of the React component [App]:
    [addTag], [handleLine], [onKeyDown] and the [characteristicvaluechanged]
    listener installed by [connectBLE], with the JavaScript library calls
    they rely on ([String.prototype.trim], [replace] with a character-class
    regular expression, [slice], [indexOf], [toString(16)], [padStart],
    [toUpperCase]).

    JavaScript strings are sequences of UTF-16 code units; they are modelled
    as lists of code-unit values.  React state is passed explicitly: every
    handler is a function from the state seen by the render that created it
    to the state after its updates were applied. *)

From Stdlib Require Import String Ascii QArith ZArith NArith Bool List Lia.
From Stdlib Require Import Strings.Byte.
Import ListNotations.

Close Scope Q_scope.

(** ** JavaScript primitives used by the component *)

Module JS.

(** A UTF-16 code unit and a JavaScript string. *)
Definition char16 := N.
Definition jsstring := list char16.

(** String literals of the source, as code units. *)
Definition str (s : string) : jsstring :=
  map N_of_ascii (list_ascii_of_string s).

(** [a === b] on strings. *)
Fixpoint streq (a b : jsstring) : bool :=
  match a, b with
  | [], [] => true
  | x :: a', y :: b' => N.eqb x y && streq a' b'
  | _, _ => false
  end.

(** Truthiness of a string: [if (s)] holds for the non-empty ones. *)
Definition truthy (s : jsstring) : bool :=
  match s with [] => false | _ :: _ => true end.

(** Relative index resolution shared by [Array.prototype.slice],
    [String.prototype.slice] and [TypedArray.prototype.slice]: a negative
    index counts from the end, and the result is clamped to [0, len]. *)
Definition relIndex (len i : Z) : Z :=
  if (i <? 0)%Z then Z.max (len + i) 0 else Z.min i len.

(** [l.slice(start, end)]. *)
Definition slice {A : Type} (l : list A) (start end_ : Z) : list A :=
  let len := Z.of_nat (length l) in
  let k := relIndex len start in
  let final := relIndex len end_ in
  firstn (Z.to_nat (final - k)) (skipn (Z.to_nat k) l).

(** WhiteSpace and LineTerminator code units, the ones [trim] strips. *)
Definition isWhiteSpace (c : char16) : bool :=
  ((9 <=? c) && (c <=? 13) || (c =? 32) || (c =? 160) || (c =? 5760)
   || (8192 <=? c) && (c <=? 8202) || (c =? 8232) || (c =? 8233)
   || (c =? 8239) || (c =? 8287) || (c =? 12288) || (c =? 65279))%N.

Fixpoint trimStart (s : jsstring) : jsstring :=
  match s with
  | [] => []
  | c :: r => if isWhiteSpace c then trimStart r else s
  end.

Definition trimEnd (s : jsstring) : jsstring := rev (trimStart (rev s)).

(** [s.trim()]. *)
Definition trim (s : jsstring) : jsstring := trimEnd (trimStart s).

(** A regular expression made of one character class, [[...]] or [[^...]]:
    the only kind the component uses. *)
Inductive ClassAtom : Type :=
| Ch (c : char16)
| Rng (lo hi : char16).

Arguments Ch c%_N.
Arguments Rng (lo hi)%_N.

Record CharClass : Type := { negated : bool; atoms : list ClassAtom }.

Definition atom_matches (c : char16) (a : ClassAtom) : bool :=
  match a with
  | Ch x => N.eqb c x
  | Rng lo hi => N.leb lo c && N.leb c hi
  end.

Definition class_matches (cls : CharClass) (c : char16) : bool :=
  xorb (negated cls) (existsb (atom_matches c) (atoms cls)).

(** [s.replace(/cls/g, repl)] for a replacement without [$] patterns: the
    scan goes left to right, every matching code unit is replaced. *)
Fixpoint replace_all (cls : CharClass) (repl s : jsstring) : jsstring :=
  match s with
  | [] => []
  | c :: r =>
      (if class_matches cls c then repl else [c]) ++ replace_all cls repl r
  end.

(** Digits of [Number.prototype.toString(16)]: [0-9] then [a-f]. *)
Definition hexDigit (d : N) : char16 :=
  (if d <? 10 then 48 + d else 87 + d)%N.

Fixpoint toString16_loop (fuel : nat) (n : N) (acc : jsstring) : jsstring :=
  match fuel with
  | O => acc
  | S fuel' =>
      let acc' := hexDigit (n mod 16)%N :: acc in
      if (n / 16 =? 0)%N then acc' else toString16_loop fuel' (n / 16)%N acc'
  end.

(** [n.toString(16)] for a non-negative integer [n]: most significant
    digit first, no leading zero, ["0"] for zero. *)
Definition toString16 (n : N) : jsstring :=
  toString16_loop (S (N.to_nat (N.log2 n))) n [].

(** [s.padStart(targetLength, padString)]. *)
Definition padStart (targetLength : nat) (padString s : jsstring) : jsstring :=
  let len := length s in
  if (targetLength <=? len)%nat then s
  else match padString with
       | [] => s
       | _ :: _ =>
           let fillLen := (targetLength - len)%nat in
           firstn fillLen (concat (repeat padString fillLen)) ++ s
       end.

(** [parts.join("")]. *)
Definition join_empty (parts : list jsstring) : jsstring := concat parts.

(** [s.toUpperCase()] on the Basic Latin range, which is where the
    component applies it (to the output of [toString(16)]). *)
Definition upper (c : char16) : char16 :=
  (if (97 <=? c) && (c <=? 122) then c - 32 else c)%N.

Definition toUpperCase (s : jsstring) : jsstring := map upper s.

(** [data.indexOf(x)] on a [Uint8Array]: first index holding [x], or -1. *)
Fixpoint indexOf_from (data : list byte) (x : byte) (i : Z) : Z :=
  match data with
  | [] => (-1)%Z
  | b :: r => if Byte.eqb b x then i else indexOf_from r x (i + 1)%Z
  end.

Definition indexOf (data : list byte) (x : byte) : Z := indexOf_from data x 0%Z.

End JS.

Import JS.

(** ** The component *)

Module App.

(** An element of the [tags] state:
    [{ id: number; epc: string; rssi?: number; ts: number }]. *)
Record Tag : Type := { id : Q; epc : jsstring; rssi : option Z; ts : Z }.

(** What one execution of the state updater of [addTag] reads from its
    environment, in evaluation order: [Date.now()] for [id],
    [Math.random()], then [Date.now()] for [ts]. *)
Record Env : Type := { now_id : Z; random : Q; now_ts : Z }.

(** The record literal of [addTag].  [id] is the real-number value of
    [Date.now() + Math.random()]; the rounding of that sum to a binary64
    is not modelled and nothing below reads [id]. *)
Definition newTag (e : jsstring) (r : option Z) (env : Env) : Tag :=
  {| id := (inject_Z (now_id env) + random env)%Q;
     epc := e; rssi := r; ts := now_ts env |}.

(** [addTag(epcRaw, rssi)], as the function from [prev] to the next value
    of [tags] ([prev] itself when the function returns before [setTags]).
    [autoDedup] is the value captured by the closure. *)
Definition addTag (autoDedup : bool) (epcRaw : jsstring) (r : option Z)
           (env : Env) (prev : list Tag) : list Tag :=
  let e := trim epcRaw in
  if negb (truthy e) then prev
  else if autoDedup && existsb (fun t => streq (epc t) e) prev then prev
  else slice (newTag e r env :: prev) 0 2000.

(** The part of the component state the capture pipeline reads and
    writes: [listening], [tags], [buffer] and [autoDedup]. *)
Record State : Type :=
  { listening : bool; tags : list Tag; buffer : jsstring; autoDedup : bool }.

Definition setTags (f : list Tag -> list Tag) (st : State) : State :=
  {| listening := listening st; tags := f (tags st);
     buffer := buffer st; autoDedup := autoDedup st |}.

Definition setBuffer (f : jsstring -> jsstring) (st : State) : State :=
  {| listening := listening st; tags := tags st;
     buffer := f (buffer st); autoDedup := autoDedup st |}.

Definition setListening (f : bool -> bool) (st : State) : State :=
  {| listening := f (listening st); tags := tags st;
     buffer := buffer st; autoDedup := autoDedup st |}.

Definition setAutoDedup (b : bool) (st : State) : State :=
  {| listening := listening st; tags := tags st;
     buffer := buffer st; autoDedup := b |}.

(** [useState] initial values. *)
Definition initial : State :=
  {| listening := true; tags := []; buffer := []; autoDedup := true |}.

(** The regular expression of [handleLine]: [/[^0-9a-zA-Z\-_:]/g]. *)
Definition EPC_FILTER : CharClass :=
  {| negated := true;
     atoms := [Rng 48 57; Rng 97 122; Rng 65 90; Ch 45; Ch 95; Ch 58] |}.

(** [const cleaned = line.replace(/[^0-9a-zA-Z\-_:]/g, "")]. *)
Definition cleaned (line : jsstring) : jsstring :=
  replace_all EPC_FILTER [] line.

(** [handleLine(line)]. *)
Definition handleLine (line : jsstring) (env : Env) (st : State) : State :=
  if negb (listening st) then st
  else
    let c := cleaned line in
    if truthy c then setTags (addTag (autoDedup st) c None env) st else st.

(** [onKeyDown(e)], on [e.key]. *)
Definition onKeyDown (key : jsstring) (env : Env) (st : State) : State :=
  if negb (listening st) then st
  else if streq key (str "Enter") then
    setBuffer (fun _ => []) (handleLine (buffer st) env st)
  else if (length key =? 1)%nat then
    setBuffer (fun b => b ++ key) st
  else if streq key (str "Backspace") then
    setBuffer (fun b => slice b 0 (-1)) st
  else st.

(** The body of the [characteristicvaluechanged] listener up to the call
    of [addTag]: the identifier computed from
    [data = new Uint8Array(value.buffer)], when the marker is found. *)
Definition epcOfData (data : list byte) : option jsstring :=
  let idx := indexOf data xe2 in
  if negb (idx =? -1)%Z then
    let epcBytes := slice data idx (idx + 12) in
    Some (toUpperCase
            (join_empty
               (map (fun b => padStart 2 (str "0") (toString16 (Byte.to_N b)))
                    epcBytes)))
  else None.

(** The [characteristicvaluechanged] listener.  It is created by
    [connectBLE] and keeps the [addTag] of the render in which the
    connection was started, hence that render's [autoDedup]
    ([dedupAtConnect]).  [value] is [None] when [event.target.value] is
    falsy. *)
Definition onCharacteristicValueChanged (dedupAtConnect : bool)
           (value : option (list byte)) (env : Env) (st : State) : State :=
  match value with
  | None => st
  | Some data =>
      match epcOfData data with
      | Some e => setTags (addTag dedupAtConnect e None env) st
      | None => st
      end
  end.

(** [clearTags] and the pause/resume button. *)
Definition clearTags (st : State) : State := setTags (fun _ => []) st.
Definition togglePause (st : State) : State := setListening negb st.

(** One offer made to the session buffer: a call of [addTag] together
    with the [autoDedup] its closure holds and the environment it reads. *)
Record Offer : Type :=
  { o_dedup : bool; o_epcRaw : jsstring; o_rssi : option Z; o_env : Env }.

Definition offer (o : Offer) (prev : list Tag) : list Tag :=
  addTag (o_dedup o) (o_epcRaw o) (o_rssi o) (o_env o) prev.

(** The buffer after a sequence of offers, first offer first. *)
Fixpoint offer_all (os : list Offer) (prev : list Tag) : list Tag :=
  match os with
  | [] => prev
  | o :: os' => offer_all os' (offer o prev)
  end.

(** Whether an offer stores a record, and the records stored by a
    sequence of offers in the order they were stored. *)
Definition inserts (o : Offer) (prev : list Tag) : bool :=
  let e := trim (o_epcRaw o) in
  truthy e && negb (o_dedup o && existsb (fun t => streq (epc t) e) prev).

Fixpoint stored (os : list Offer) (prev : list Tag) : list Tag :=
  match os with
  | [] => []
  | o :: os' =>
      (if inserts o prev
       then [newTag (trim (o_epcRaw o)) (o_rssi o) (o_env o)] else [])
      ++ stored os' (offer o prev)
  end.

(** A sequence of key events, each with the environment its handler
    reads. *)
Fixpoint keys (ks : list (jsstring * Env)) (st : State) : State :=
  match ks with
  | [] => st
  | (k, env) :: ks' => keys ks' (onKeyDown k env st)
  end.

End App.

Import App.

(** ** The words of the specification, for comparison *)

(** The character set [0-9 a-z A-Z - _ :] of the Normalizer, written out. *)
Definition normalizer_charset : jsstring :=
  str "0123456789abcdefghijklmnopqrstuvwxyzABCDEFGHIJKLMNOPQRSTUVWXYZ-_:".

Definition in_charset (c : char16) : bool :=
  existsb (N.eqb c) normalizer_charset.

(** "Strips every character not in the set": the input with exactly those
    characters removed, the others kept in order. *)
Definition normalize_spec (raw : jsstring) : jsstring := filter in_charset raw.

(** Uppercase hexadecimal digits. *)
Definition is_upper_hex (c : char16) : bool :=
  existsb (N.eqb c) (str "0123456789ABCDEF").

(** "Encodes the extracted bytes as uppercase hexadecimal, two hex digits
    per byte, concatenated with no separator". *)
Definition upper_hex_digits : jsstring := str "0123456789ABCDEF".

Definition upper_hex_spec (bs : list byte) : jsstring :=
  flat_map (fun b => [nth (N.to_nat (Byte.to_N b / 16)) upper_hex_digits 0%N;
                      nth (N.to_nat (Byte.to_N b mod 16)) upper_hex_digits 0%N])
           bs.

(** ** Buffer invariant *)

(** Every stored identifier is the result of a [trim] and is not empty. *)
Definition stored_form (t : Tag) : Prop := trim (epc t) = epc t /\ epc t <> [].

(** What the handlers store: a non-empty identifier over the character
    set of [handleLine], without [rssi]. *)
Definition captured_form (t : Tag) : Prop :=
  epc t <> [] /\ Forall (fun c => in_charset c = true) (epc t) /\ rssi t = None.

(** ** Sample inputs *)

Definition env_at (t : Z) : Env := {| now_id := t; random := 0%Q; now_ts := t |}.

(** Paused, nothing captured yet, a partially typed line in the wedge
    buffer. *)
Definition paused : State :=
  {| listening := false; tags := []; buffer := str "AB"; autoDedup := true |}.

Definition offer_of (d : bool) (e : string) (t : Z) : Offer :=
  {| o_dedup := d; o_epcRaw := str e; o_rssi := None; o_env := env_at t |}.

(** Three offers with deduplication on, the second repeating the first. *)
Definition sample_offers : list Offer :=
  [offer_of true "AB12" 1; offer_of true "AB12" 2; offer_of true "CD34" 3].

(** Enough offers of one identifier, deduplication off, to fill the
    buffer. *)
Definition filling_offers : list Offer :=
  map (fun k => offer_of false "AB12" (Z.of_nat k)) (seq 0 2000).

(** The payload of the end-to-end example and one whose marker is three
    bytes from the end. *)
Definition example_payload : list byte :=
  [x01; xe2; x11; x22; x33; x44; x55; x66; x77; x88; x99; xaa; xbb; xcc].

Definition short_payload : list byte := [x01; x02; xe2; x0a; xff].

(** The key events of one wedge scan: the characters of the line, then
    Enter, each with the environment its handler runs in. *)
Definition scan_keys (c1 c2 c3 c4 : string) (e1 e2 e3 e4 e5 : Env)
  : list (jsstring * Env) :=
  [(str c1, e1); (str c2, e2); (str c3, e3); (str c4, e4); (str "Enter", e5)].

(** ** Events of a session *)

(** What can happen to the component between two renders: a key pressed in
    the wedge input, a notification delivered to a listener installed by
    [connectBLE] (with the [autoDedup] that listener holds), the pause
    button, the clear button, the deduplication checkbox. *)
Inductive Event : Type :=
| KeyDown (key : jsstring) (env : Env)
| Notification (dedupAtConnect : bool) (value : option (list byte)) (env : Env)
| PauseButton
| ClearButton
| DedupCheckbox (checked : bool).

Definition step (ev : Event) (st : State) : State :=
  match ev with
  | KeyDown key env => onKeyDown key env st
  | Notification d value env => onCharacteristicValueChanged d value env st
  | PauseButton => togglePause st
  | ClearButton => clearTags st
  | DedupCheckbox checked => setAutoDedup checked st
  end.

Fixpoint run (evs : list Event) (st : State) : State :=
  match evs with
  | [] => st
  | ev :: evs' => run evs' (step ev st)
  end.

(** Deduplication stays on: the checkbox is never unticked and every
    listener was installed while it was ticked. *)
Definition dedup_kept (ev : Event) : Prop :=
  match ev with
  | Notification d _ _ => d = true
  | DedupCheckbox checked => checked = true
  | _ => True
  end.

(** The key events of a line typed one code unit per key. *)
Definition typed (line : jsstring) (env : Env) : list (jsstring * Env) :=
  map (fun c => ([c], env)) line.

(** ** [exportCSV] *)

(** [parts.join(sep)]. *)
Fixpoint join (sep : jsstring) (parts : list jsstring) : jsstring :=
  match parts with
  | [] => []
  | [p] => p
  | p :: rest => p ++ sep ++ join sep rest
  end.

Section CsvExport.

(** The two library conversions of the row template: a number to its
    string, and [new Date(ts).toISOString()]. *)
Variable Number_toString : Z -> jsstring.
Variable toISOString : Z -> jsstring.

(** [`${t.epc},${t.rssi ?? ""},${new Date(t.ts).toISOString()}`]. *)
Definition csvRow (t : Tag) : jsstring :=
  epc t ++ str ","
  ++ match rssi t with Some r => Number_toString r | None => [] end
  ++ str "," ++ toISOString (ts t).

(** The array [rows] of [exportCSV] and the text put in the blob,
    [rows.join("\n")]. *)
Definition csvRows (tgs : list Tag) : list jsstring :=
  str "epc,rssi,timestamp" :: map csvRow tgs.

Definition csvText (tgs : list Tag) : jsstring := join [10%N] (csvRows tgs).

End CsvExport.

(** A session touching every handler, and a date conversion free of line
    feeds, for examples. *)
Definition sample_session : list Event :=
  [KeyDown (str "A") (env_at 1); KeyDown (str "1") (env_at 2);
   KeyDown (str "Enter") (env_at 3);
   Notification true (Some short_payload) (env_at 4);
   PauseButton; KeyDown (str "Z") (env_at 5); PauseButton;
   KeyDown (str "A") (env_at 6); KeyDown (str "1") (env_at 7);
   KeyDown (str "Enter") (env_at 8)].

Definition sample_iso (t : Z) : jsstring := str "1970-01-01T00:00:00.000Z".

(** 2000 offers of pairwise different identifiers (one letter each, code
    units 300 to 2299), deduplication on. *)
Definition distinct_offers : list Offer :=
  map (fun k => {| o_dedup := true; o_epcRaw := [N.of_nat k + 300]%N;
                   o_rssi := None; o_env := env_at (Z.of_nat k) |})
      (seq 0 2000).

(** * Properties *)

(** ** [slice] *)

Section Slice.
Context {A : Type}.
Implicit Types l : list A.

Lemma slice_prefix l (n : nat) : slice l 0 (Z.of_nat n) = firstn n l.
Proof.
  unfold slice, relIndex.
  replace (0 <? 0)%Z with false by reflexivity.
  destruct (Z.of_nat n <? 0)%Z eqn:Hn; [apply Z.ltb_lt in Hn; lia|].
  rewrite (Z.min_l 0) by lia. rewrite Z.sub_0_r. change (Z.to_nat 0) with O.
  rewrite skipn_O.
  destruct (Nat.le_gt_cases n (length l)) as [Hle | Hgt].
  - rewrite Z.min_l by lia. now rewrite Nat2Z.id.
  - rewrite Z.min_r by lia. rewrite Nat2Z.id.
    rewrite firstn_all. symmetry. apply firstn_all2. lia.
Qed.

Lemma slice_drop_last l : slice l 0 (-1) = removelast l.
Proof.
  unfold slice, relIndex.
  replace (0 <? 0)%Z with false by reflexivity.
  replace (-1 <? 0)%Z with true by reflexivity.
  rewrite (Z.min_l 0) by lia. change (Z.to_nat 0) with O. rewrite skipn_O.
  rewrite removelast_firstn_len. f_equal. lia.
Qed.

Lemma slice_window l (i n : nat) :
  slice l (Z.of_nat i) (Z.of_nat i + Z.of_nat n) = firstn n (skipn i l).
Proof.
  unfold slice, relIndex.
  destruct (Z.of_nat i <? 0)%Z eqn:Hi; [apply Z.ltb_lt in Hi; lia|].
  destruct (Z.of_nat i + Z.of_nat n <? 0)%Z eqn:Hn; [apply Z.ltb_lt in Hn; lia|].
  destruct (Nat.le_gt_cases i (length l)) as [Hle | Hgt].
  - rewrite (Z.min_l (Z.of_nat i)) by lia. rewrite Nat2Z.id.
    destruct (Nat.le_gt_cases (i + n) (length l)) as [Hle' | Hgt'].
    + rewrite Z.min_l by lia. f_equal. lia.
    + rewrite Z.min_r by lia.
      rewrite !firstn_all2; try reflexivity; rewrite length_skipn; lia.
  - rewrite !Z.min_r by lia. rewrite Z.sub_diag. change (Z.to_nat 0) with O.
    rewrite (skipn_all2 (n := i) l) by lia. now rewrite firstn_nil.
Qed.

Lemma NoDup_firstn_keep l (n : nat) : NoDup l -> NoDup (firstn n l).
Proof.
  intros H. revert n. induction H as [|x l Hx Hl IH]; intros [|n]; simpl;
    try constructor; auto.
  intros Hin. apply Hx. rewrite <- (firstn_skipn n l). apply in_or_app. now left.
Qed.

Lemma rev_firstn_suffix l (n : nat) :
  rev l = rev (skipn n l) ++ rev (firstn n l).
Proof. now rewrite <- rev_app_distr, firstn_skipn. Qed.

End Slice.

(** ** String equality and [trim] *)

Lemma streq_spec (a b : jsstring) : streq a b = true <-> a = b.
Proof.
  revert b. induction a as [|x a IH]; intros [|y b]; simpl; split;
    try congruence; try discriminate.
  - intros H. apply andb_true_iff in H as [Hx Ha].
    apply N.eqb_eq in Hx. apply IH in Ha. congruence.
  - intros H. injection H as -> ->. rewrite N.eqb_refl. now apply IH.
Qed.

Lemma has_epc_spec (e : jsstring) (prev : list Tag) :
  existsb (fun t => streq (epc t) e) prev = true <-> In e (map epc prev).
Proof.
  rewrite existsb_exists, in_map_iff. split.
  - intros (t & Hin & Heq). apply streq_spec in Heq. eauto.
  - intros (t & Heq & Hin). exists t. split; [assumption|]. now apply streq_spec.
Qed.

Lemma trimStart_head (s : jsstring) c r :
  trimStart s = c :: r -> isWhiteSpace c = false.
Proof.
  induction s as [|x s IH]; simpl; [discriminate|].
  destruct (isWhiteSpace x) eqn:Hx; [exact IH|].
  intros H. injection H as <- _. exact Hx.
Qed.

Lemma trimStart_keep (c : char16) (r : jsstring) :
  isWhiteSpace c = false -> trimStart (c :: r) = c :: r.
Proof. intros H. simpl. now rewrite H. Qed.

Lemma trimStart_idem (s : jsstring) : trimStart (trimStart s) = trimStart s.
Proof.
  destruct (trimStart s) as [|c r] eqn:E; [reflexivity|].
  apply trimStart_keep. eapply trimStart_head; eassumption.
Qed.

Lemma trimStart_app (l m : jsstring) (c : char16) :
  isWhiteSpace c = false -> trimStart (l ++ c :: m) = trimStart l ++ c :: m.
Proof.
  intros Hc. induction l as [|x l IH]; simpl.
  - now rewrite Hc.
  - destruct (isWhiteSpace x); [exact IH | reflexivity].
Qed.

Lemma trimEnd_cons (c : char16) (r : jsstring) :
  isWhiteSpace c = false -> trimEnd (c :: r) = c :: trimEnd r.
Proof.
  intros Hc. unfold trimEnd. simpl rev.
  rewrite trimStart_app by assumption.
  rewrite rev_app_distr. reflexivity.
Qed.

Lemma trimEnd_idem (s : jsstring) : trimEnd (trimEnd s) = trimEnd s.
Proof. unfold trimEnd. now rewrite rev_involutive, trimStart_idem. Qed.

Lemma trim_idem (s : jsstring) : trim (trim s) = trim s.
Proof.
  unfold trim. destruct (trimStart s) as [|c r] eqn:E; [reflexivity|].
  assert (Hc : isWhiteSpace c = false) by (eapply trimStart_head; eassumption).
  rewrite trimEnd_cons by assumption.
  rewrite trimStart_keep by assumption.
  rewrite trimEnd_cons by assumption.
  now rewrite trimEnd_idem.
Qed.

Lemma trim_no_space (s : jsstring) :
  Forall (fun c => isWhiteSpace c = false) s -> trim s = s.
Proof.
  intros H. unfold trim.
  assert (Hs : trimStart s = s) by (destruct H; [reflexivity | now apply trimStart_keep]).
  rewrite Hs. clear Hs. induction H as [|c r Hc Hr IH]; [reflexivity|].
  rewrite trimEnd_cons by assumption. now rewrite IH.
Qed.

(** ** The character class of [handleLine] *)

Lemma below_forall (P : N -> bool) (k : nat) :
  forallb P (map N.of_nat (seq 0 k)) = true ->
  forall c, (c < N.of_nat k)%N -> P c = true.
Proof.
  intros H c Hc. rewrite forallb_forall in H. apply H.
  apply in_map_iff. exists (N.to_nat c). split; [apply N2Nat.id|].
  apply in_seq. lia.
Qed.

Lemma not_listed_above (bound c : N) (l : list N) :
  forallb (fun x => (x <? bound)%N) l = true ->
  (bound <= c)%N -> existsb (N.eqb c) l = false.
Proof.
  intros Hl Hc. rewrite forallb_forall in Hl.
  destruct (existsb (N.eqb c) l) eqn:E; [|reflexivity].
  apply existsb_exists in E as (x & Hin & Heq).
  apply N.eqb_eq in Heq. subst x. apply Hl, N.ltb_lt in Hin. lia.
Qed.

Lemma EPC_FILTER_charset (c : char16) :
  class_matches EPC_FILTER c = negb (in_charset c).
Proof.
  destruct (N.lt_ge_cases c 123) as [Hlt | Hge].
  - apply Bool.eqb_prop.
    apply (below_forall
             (fun c => Bool.eqb (class_matches EPC_FILTER c) (negb (in_charset c)))
             123); [vm_compute; reflexivity | exact Hlt].
  - unfold in_charset.
    rewrite (not_listed_above 123) by (vm_compute; reflexivity || exact Hge).
    unfold class_matches, EPC_FILTER; cbn [negated atoms existsb atom_matches].
    repeat match goal with
           | |- context [N.leb ?a ?b] => destruct (N.leb_spec a b); try lia
           | |- context [N.eqb ?a ?b] => destruct (N.eqb_spec a b); try lia
           end.
    reflexivity.
Qed.

Lemma cleaned_filter (s : jsstring) : cleaned s = filter in_charset s.
Proof.
  unfold cleaned. induction s as [|c r IH]; [reflexivity|].
  cbn [replace_all filter]. rewrite EPC_FILTER_charset, IH.
  now destruct (in_charset c).
Qed.

Lemma charset_no_space (c : char16) : in_charset c = true -> isWhiteSpace c = false.
Proof.
  intros H. destruct (N.lt_ge_cases c 123) as [Hlt | Hge].
  - apply (below_forall (fun c => implb (in_charset c) (negb (isWhiteSpace c))) 123)
      in Hlt; [|vm_compute; reflexivity].
    rewrite H in Hlt. simpl in Hlt. now apply negb_true_iff.
  - unfold in_charset in H.
    rewrite (not_listed_above 123) in H by (vm_compute; reflexivity || exact Hge).
    discriminate.
Qed.

Lemma cleaned_charset (s : jsstring) : Forall (fun c => in_charset c = true) (cleaned s).
Proof.
  rewrite cleaned_filter. apply Forall_forall. intros c Hc.
  now apply filter_In in Hc.
Qed.

Lemma cleaned_trim (s : jsstring) : trim (cleaned s) = cleaned s.
Proof.
  apply trim_no_space. eapply Forall_impl; [|apply cleaned_charset].
  exact charset_no_space.
Qed.

Lemma filter_twice {A : Type} (f : A -> bool) (l : list A) :
  filter f (filter f l) = filter f l.
Proof.
  induction l as [|x l IH]; [reflexivity|]. simpl.
  destruct (f x) eqn:E; [|exact IH]. simpl. now rewrite E, IH.
Qed.

(** ** The notification payload *)

Lemma indexOf_from_first (pre post : list byte) (x : byte) (i : Z) :
  ~ In x pre -> indexOf_from (pre ++ x :: post) x i = (i + Z.of_nat (length pre))%Z.
Proof.
  revert i. induction pre as [|b pre IH]; intros i Hpre; simpl app.
  - simpl. rewrite (Byte.byte_dec_lb eq_refl). simpl. lia.
  - cbn [indexOf_from]. destruct (Byte.eqb b x) eqn:E.
    + apply Byte.byte_dec_bl in E. subst b. exfalso. apply Hpre. now left.
    + rewrite IH by (intros H; apply Hpre; now right).
      cbn [length]. lia.
Qed.

Lemma indexOf_from_absent (data : list byte) (x : byte) (i : Z) :
  ~ In x data -> indexOf_from data x i = (-1)%Z.
Proof.
  revert i. induction data as [|b data IH]; intros i Hx; [reflexivity|].
  cbn [indexOf_from]. destruct (Byte.eqb b x) eqn:E.
  - apply Byte.byte_dec_bl in E. subst b. exfalso. apply Hx. now left.
  - apply IH. intros H. apply Hx. now right.
Qed.

Lemma byte_hex (b : byte) :
  toUpperCase (padStart 2 (str "0") (toString16 (Byte.to_N b)))
  = [nth (N.to_nat (Byte.to_N b / 16)) upper_hex_digits 0%N;
     nth (N.to_nat (Byte.to_N b mod 16)) upper_hex_digits 0%N].
Proof. destruct b; vm_compute; reflexivity. Qed.

Lemma hex_of_bytes (bs : list byte) :
  toUpperCase
    (join_empty (map (fun b => padStart 2 (str "0") (toString16 (Byte.to_N b))) bs))
  = upper_hex_spec bs.
Proof.
  unfold toUpperCase, join_empty, upper_hex_spec.
  induction bs as [|b bs IH]; [reflexivity|].
  cbn [map concat flat_map]. rewrite map_app, IH. f_equal. apply byte_hex.
Qed.

Lemma epcOfData_found (pre post : list byte) :
  ~ In xe2 pre ->
  epcOfData (pre ++ xe2 :: post) = Some (upper_hex_spec (firstn 12 (xe2 :: post))).
Proof.
  intros Hpre. unfold epcOfData, indexOf.
  rewrite indexOf_from_first by assumption. rewrite Z.add_0_l.
  destruct (Z.of_nat (length pre) =? -1)%Z eqn:E; [apply Z.eqb_eq in E; lia|].
  cbn [negb]. rewrite hex_of_bytes. do 2 f_equal.
  change 12%Z with (Z.of_nat 12). rewrite slice_window.
  rewrite skipn_app, Nat.sub_diag, skipn_all. reflexivity.
Qed.

Lemma epcOfData_absent (data : list byte) :
  ~ In xe2 data -> epcOfData data = None.
Proof.
  intros H. unfold epcOfData, indexOf. now rewrite indexOf_from_absent.
Qed.

Lemma upper_hex_spec_length (bs : list byte) :
  length (upper_hex_spec bs) = (2 * length bs)%nat.
Proof.
  unfold upper_hex_spec. induction bs as [|b bs IH]; [reflexivity|].
  cbn [flat_map length app]. rewrite IH. lia.
Qed.

Lemma upper_hex_spec_digits (bs : list byte) :
  Forall (fun c => is_upper_hex c = true) (upper_hex_spec bs).
Proof.
  unfold upper_hex_spec. induction bs as [|b bs IH]; [constructor|].
  cbn [flat_map app]. repeat constructor; try exact IH;
    destruct b; vm_compute; reflexivity.
Qed.

Lemma upper_hex_no_space (c : char16) : is_upper_hex c = true -> isWhiteSpace c = false.
Proof.
  intros H. destruct (N.lt_ge_cases c 123) as [Hlt | Hge].
  - apply (below_forall (fun c => implb (is_upper_hex c) (negb (isWhiteSpace c))) 123)
      in Hlt; [|vm_compute; reflexivity].
    rewrite H in Hlt. simpl in Hlt. now apply negb_true_iff.
  - unfold is_upper_hex in H.
    rewrite (not_listed_above 123) in H by (vm_compute; reflexivity || exact Hge).
    discriminate.
Qed.

Lemma upper_hex_fixed (c : char16) : is_upper_hex c = true -> upper c = c.
Proof.
  intros H. destruct (N.lt_ge_cases c 123) as [Hlt | Hge].
  - apply (below_forall (fun c => implb (is_upper_hex c) (N.eqb (upper c) c)) 123)
      in Hlt; [|vm_compute; reflexivity].
    rewrite H in Hlt. simpl in Hlt. now apply N.eqb_eq.
  - unfold is_upper_hex in H.
    rewrite (not_listed_above 123) in H by (vm_compute; reflexivity || exact Hge).
    discriminate.
Qed.

(** ** [addTag] and the session buffer *)

Lemma front_insert_room {A : Type} (m : nat) (x : A) (l : list A) :
  (length l < S m)%nat -> firstn (S m) (x :: l) = x :: l.
Proof. intros H. apply firstn_all2. cbn [length]. lia. Qed.

Lemma front_insert_full {A : Type} (m : nat) (x : A) (l : list A) :
  length l = S m -> firstn (S m) (x :: l) = x :: removelast l.
Proof.
  intros H. rewrite firstn_cons, removelast_firstn_len, H. reflexivity.
Qed.

Lemma addTag_cases (d : bool) (e : jsstring) (r : option Z) (env : Env)
      (prev : list Tag) :
  addTag d e r env prev
  = if truthy (trim e) && negb (d && existsb (fun t => streq (epc t) (trim e)) prev)
    then firstn 2000 (newTag (trim e) r env :: prev)
    else prev.
Proof.
  unfold addTag. cbv zeta.
  change 2000%Z with (Z.of_nat 2000). rewrite slice_prefix.
  destruct (truthy (trim e)); [|reflexivity].
  now destruct (d && existsb _ prev).
Qed.

Lemma offer_cases (o : Offer) (prev : list Tag) :
  offer o prev
  = if inserts o prev
    then firstn 2000 (newTag (trim (o_epcRaw o)) (o_rssi o) (o_env o) :: prev)
    else prev.
Proof. unfold offer, inserts. apply addTag_cases. Qed.

Lemma offer_length (o : Offer) (prev : list Tag) :
  (length prev <= 2000)%nat -> (length (offer o prev) <= 2000)%nat.
Proof.
  intros H. rewrite offer_cases. destruct (inserts o prev); [|exact H].
  apply firstn_le_length.
Qed.

(** Induction over the offers of a session, for properties every offer
    preserves. *)
Lemma offer_all_preserves (P : list Tag -> Prop) (G : Offer -> Prop) :
  (forall o prev, G o -> P prev -> P (offer o prev)) ->
  forall os prev, Forall G os -> P prev -> P (offer_all os prev).
Proof.
  intros Hstep os. induction os as [|o os IH]; intros prev HG HP; [exact HP|].
  inversion HG; subst. cbn [offer_all]. apply IH; auto.
Qed.

Lemma offer_all_length (os : list Offer) (prev : list Tag) :
  (length prev <= 2000)%nat -> (length (offer_all os prev) <= 2000)%nat.
Proof.
  apply (offer_all_preserves (fun b => (length b <= 2000)%nat) (fun _ => True)).
  - intros o b _. apply offer_length.
  - apply Forall_forall. trivial.
Qed.

Lemma offer_stored_form (o : Offer) (prev : list Tag) :
  Forall stored_form prev -> Forall stored_form (offer o prev).
Proof.
  intros H. rewrite offer_cases. destruct (inserts o prev) eqn:E; [|exact H].
  apply Forall_forall. intros t Ht.
  apply (In_nth _ _ t) in Ht as (k & Hk & <-).
  rewrite length_firstn in Hk. rewrite nth_firstn.
  destruct (k <? 2000)%nat eqn:Hlt; [|apply Nat.ltb_ge in Hlt; lia].
  destruct k as [|k]; cbn [nth].
  - unfold stored_form. cbn [epc newTag]. split; [apply trim_idem|].
    unfold inserts in E. cbv zeta in E. apply andb_true_iff in E as [E _].
    intros Hnil. rewrite Hnil in E. discriminate.
  - rewrite Forall_forall in H. apply H. apply nth_In.
    cbn [length] in Hk. lia.
Qed.

Lemma offer_all_stored_form (os : list Offer) :
  Forall stored_form (offer_all os []).
Proof.
  apply (offer_all_preserves (Forall stored_form) (fun _ => True)).
  - intros o b _. apply offer_stored_form.
  - apply Forall_forall. trivial.
  - constructor.
Qed.

Lemma offer_unique (o : Offer) (prev : list Tag) :
  o_dedup o = true -> NoDup (map epc prev) -> NoDup (map epc (offer o prev)).
Proof.
  intros Hd H. rewrite offer_cases. destruct (inserts o prev) eqn:E; [|exact H].
  rewrite <- firstn_map. apply NoDup_firstn_keep. cbn [map epc newTag].
  constructor; [|exact H].
  unfold inserts in E. cbv zeta in E. rewrite Hd in E.
  apply andb_true_iff in E as [_ E]. apply negb_true_iff in E.
  cbn [andb] in E. intros Hin. apply has_epc_spec in Hin. congruence.
Qed.

Lemma addTag_duplicate (e : jsstring) (r : option Z) (env : Env) (prev : list Tag) :
  In (trim e) (map epc prev) -> addTag true e r env prev = prev.
Proof.
  intros H. rewrite addTag_cases. apply has_epc_spec in H. rewrite H.
  cbn [andb negb]. now rewrite andb_false_r.
Qed.

(** The records stored during a session, in storage order, end with the
    buffer read from its last element to its first. *)
Lemma stored_window (os : list Offer) (prev : list Tag) (before : list Tag) :
  exists dropped,
    before ++ rev prev ++ stored os prev = dropped ++ rev (offer_all os prev).
Proof.
  revert prev before. induction os as [|o os IH]; intros prev before.
  - exists before. cbn [stored offer_all]. now rewrite app_nil_r.
  - cbn [stored offer_all]. rewrite offer_cases.
    destruct (inserts o prev).
    + set (new := newTag _ _ _).
      destruct (IH (firstn 2000 (new :: prev))
                   (before ++ rev (skipn 2000 (new :: prev)))) as (dropped & Hd).
      exists dropped. rewrite <- Hd.
      rewrite <- !app_assoc. f_equal. rewrite !app_assoc. f_equal.
      rewrite <- rev_firstn_suffix. reflexivity.
    + destruct (IH prev before) as (dropped & Hd). exists dropped.
      now rewrite <- Hd.
Qed.

(** ** The capture gate *)

Lemma handleLine_paused (line : jsstring) (env : Env) (st : State) :
  listening st = false -> handleLine line env st = st.
Proof. intros H. unfold handleLine. now rewrite H. Qed.

Lemma onKeyDown_paused (key : jsstring) (env : Env) (st : State) :
  listening st = false -> onKeyDown key env st = st.
Proof. intros H. unfold onKeyDown. now rewrite H. Qed.

(** C1, as the code has it: the gate is checked by [handleLine] only.  With
    [listening] false a wedge line leaves [tags] as it was, while a
    notification payload holding the marker is handed to [addTag] by the
    listener and its record is stored. *)
Theorem C1_notification_stored_while_paused (d : bool) (env : Env) :
  listening paused = false
  /\ tags (handleLine (str "E211") env paused) = tags paused
  /\ tags (onCharacteristicValueChanged d (Some [xe2; x11]) env paused)
     = [newTag (str "E211") None env]
  /\ tags (onCharacteristicValueChanged d (Some [xe2; x11]) env paused)
     <> tags paused.
Proof.
  split; [reflexivity|]. split; [reflexivity|].
  assert (H : tags (onCharacteristicValueChanged d (Some [xe2; x11]) env paused)
              = [newTag (str "E211") None env]).
  { unfold onCharacteristicValueChanged.
    change (epcOfData [xe2; x11]) with (Some (str "E211")).
    unfold setTags. cbn [tags paused]. rewrite addTag_cases.
    change (trim (str "E211")) with (str "E211").
    cbn [existsb truthy str andb negb]. rewrite andb_false_r. reflexivity. }
  split; [exact H|]. rewrite H. discriminate.
Qed.

(** ** Uniqueness *)

(** C2: after any sequence of offers made with deduplication on, starting
    from the empty buffer, no two records of the buffer have the same
    identifier, and an offer of an identifier that occurs in the buffer
    returns the buffer as it was. *)
Theorem C2_unique_identifiers (os : list Offer) :
  Forall (fun o => o_dedup o = true) os ->
  NoDup (map epc (offer_all os []))
  /\ forall (e : jsstring) (r : option Z) (env : Env),
       In e (map epc (offer_all os [])) ->
       addTag true e r env (offer_all os []) = offer_all os [].
Proof.
  intros Hd. split.
  - apply (offer_all_preserves (fun b => NoDup (map epc b))
                               (fun o => o_dedup o = true)); auto.
    + intros o prev. apply offer_unique.
    + constructor.
  - intros e r env Hin. apply addTag_duplicate.
    assert (Hform := offer_all_stored_form os).
    apply in_map_iff in Hin as (t & <- & Ht).
    rewrite Forall_forall in Hform. destruct (Hform t Ht) as [-> _].
    now apply in_map.
Qed.

Lemma C2_unique_identifiers_witness :
  NoDup (map epc (offer_all sample_offers []))
  /\ addTag true (str "AB12") None (env_at 4) (offer_all sample_offers [])
     = offer_all sample_offers [].
Proof.
  destruct (C2_unique_identifiers sample_offers) as [H1 H2].
  - repeat constructor.
  - split; [exact H1|]. apply H2. vm_compute. auto.
Defined.

(** ** Bounded retention *)

(** C3: after any sequence of offers from the empty buffer the buffer has
    at most 2000 records and is the tail of the storage history read
    backwards (newest first).  An offer that stores nothing leaves it as it
    was; one that stores a record puts it in front, and when the buffer
    already holds 2000 records the last one, the earliest stored of those
    present, is the one dropped. *)
Theorem C3_bounded_newest_first (os : list Offer) :
  (length (offer_all os []) <= 2000)%nat
  /\ (exists dropped, stored os [] = dropped ++ rev (offer_all os []))
  /\ (forall o, inserts o (offer_all os []) = false ->
                offer o (offer_all os []) = offer_all os [])
  /\ (forall o, inserts o (offer_all os []) = true ->
        ((length (offer_all os []) < 2000)%nat ->
         offer o (offer_all os [])
         = newTag (trim (o_epcRaw o)) (o_rssi o) (o_env o) :: offer_all os [])
        /\ (length (offer_all os []) = 2000%nat ->
            exists dropped kept oldest,
              stored os [] = dropped ++ oldest :: rev kept
              /\ offer_all os [] = kept ++ [oldest]
              /\ offer o (offer_all os [])
                 = newTag (trim (o_epcRaw o)) (o_rssi o) (o_env o) :: kept)).
Proof.
  assert (Hwin : exists dropped, stored os [] = dropped ++ rev (offer_all os [])).
  { destruct (stored_window os [] []) as (dropped & Hd). now exists dropped. }
  split; [apply offer_all_length; cbn [length]; lia|].
  split; [exact Hwin|].
  split.
  - intros o Hno. rewrite offer_cases. now rewrite Hno.
  - intros o Hins. rewrite offer_cases, Hins. split.
    + intros Hlt. now apply (front_insert_room 1999).
    + intros Hfull. destruct Hwin as (dropped & Hd).
      assert (Hne : offer_all os [] <> []).
      { intros Hnil. rewrite Hnil in Hfull. discriminate. }
      exists dropped, (removelast (offer_all os [])),
        (last (offer_all os []) (newTag [] None (env_at 0))).
      assert (Hsplit := app_removelast_last (newTag [] None (env_at 0)) Hne).
      split; [|split].
      * rewrite Hd. rewrite Hsplit at 1. now rewrite rev_app_distr.
      * exact Hsplit.
      * now apply (front_insert_full 1999).
Qed.

Lemma C3_bounded_newest_first_witness :
  (length (offer_all filling_offers []) <= 2000)%nat
  /\ exists dropped kept oldest,
       stored filling_offers [] = dropped ++ oldest :: rev kept
       /\ offer_all filling_offers [] = kept ++ [oldest]
       /\ offer (offer_of false "AB12" 2000) (offer_all filling_offers [])
          = newTag (str "AB12") None (env_at 2000) :: kept.
Proof.
  destruct (C3_bounded_newest_first filling_offers) as (Hlen & _ & _ & Hins).
  split; [exact Hlen|].
  apply (Hins (offer_of false "AB12" 2000)); vm_compute; reflexivity.
Defined.

(** ** The notification payload parser *)

(** C4: the 14-byte example payload has its first marker at offset 1, the
    12 bytes from there are taken, and the identifier is their uppercase
    hexadecimal form, E2112233445566778899AABB. *)
Theorem C4_marker_example :
  indexOf example_payload xe2 = 1%Z
  /\ slice example_payload 1 (1 + 12)
     = [xe2; x11; x22; x33; x44; x55; x66; x77; x88; x99; xaa; xbb]
  /\ epcOfData example_payload = Some (str "E2112233445566778899AABB").
Proof. repeat split; vm_compute; reflexivity. Qed.

Lemma epcOfData_upper (data : list byte) (e : jsstring) :
  epcOfData data = Some e -> exists bs, e = upper_hex_spec bs.
Proof.
  unfold epcOfData. destruct (negb _); [|discriminate].
  rewrite hex_of_bytes. intros H. injection H as <-. eauto.
Qed.

Lemma upper_hex_spec_trim (bs : list byte) :
  trim (upper_hex_spec bs) = upper_hex_spec bs.
Proof.
  apply trim_no_space. eapply Forall_impl; [|apply upper_hex_spec_digits].
  exact upper_hex_no_space.
Qed.

(** C8: when the first marker of a payload has fewer than 12 bytes from it
    to the end, the listener computes the uppercase hexadecimal form of
    exactly those remaining bytes (two digits per byte) and hands it to
    [addTag]; unless deduplication rejects it, its record is put in front of
    the buffer. *)
Theorem C8_truncated_field (pre post : list byte) :
  ~ In xe2 pre ->
  (length (xe2 :: post) < 12)%nat ->
  epcOfData (pre ++ xe2 :: post) = Some (upper_hex_spec (xe2 :: post))
  /\ length (upper_hex_spec (xe2 :: post)) = (2 * length (xe2 :: post))%nat
  /\ Forall (fun c => is_upper_hex c = true) (upper_hex_spec (xe2 :: post))
  /\ forall (d : bool) (env : Env) (st : State),
       onCharacteristicValueChanged d (Some (pre ++ xe2 :: post)) env st
       = setTags (addTag d (upper_hex_spec (xe2 :: post)) None env) st
       /\ (d && existsb (fun t => streq (epc t) (upper_hex_spec (xe2 :: post)))
                        (tags st) = false ->
           tags (onCharacteristicValueChanged d (Some (pre ++ xe2 :: post)) env st)
           = firstn 2000 (newTag (upper_hex_spec (xe2 :: post)) None env :: tags st)).
Proof.
  intros Hpre Hshort.
  assert (He : epcOfData (pre ++ xe2 :: post) = Some (upper_hex_spec (xe2 :: post))).
  { rewrite epcOfData_found by assumption. do 2 f_equal.
    apply firstn_all2. lia. }
  split; [exact He|]. split; [apply upper_hex_spec_length|].
  split; [apply upper_hex_spec_digits|].
  intros d env st.
  assert (Hrun : onCharacteristicValueChanged d (Some (pre ++ xe2 :: post)) env st
                 = setTags (addTag d (upper_hex_spec (xe2 :: post)) None env) st).
  { unfold onCharacteristicValueChanged. now rewrite He. }
  split; [exact Hrun|]. intros Hnew. rewrite Hrun. unfold setTags. cbn [tags].
  rewrite addTag_cases, upper_hex_spec_trim, Hnew. reflexivity.
Qed.

Lemma C8_truncated_field_witness :
  epcOfData short_payload = Some (str "E20AFF")
  /\ tags (onCharacteristicValueChanged true (Some short_payload) (env_at 7) initial)
     = [newTag (str "E20AFF") None (env_at 7)].
Proof.
  destruct (C8_truncated_field [x01; x02] [x0a; xff]) as (H1 & _ & _ & H4).
  - intros [H | [H | []]]; discriminate H.
  - cbn [length]. lia.
  - split; [exact H1|].
    destruct (H4 true (env_at 7) initial) as [_ H]. apply H. reflexivity.
Defined.

(** ** The normalizer *)

Lemma in_charset_In (c : char16) : in_charset c = true <-> In c normalizer_charset.
Proof.
  unfold in_charset. rewrite existsb_exists. split.
  - intros (x & Hin & Heq). apply N.eqb_eq in Heq. now subst.
  - intros H. exists c. split; [assumption | apply N.eqb_refl].
Qed.

(** C5: the string [handleLine] computes from a line is the line with every
    character outside [0-9a-zA-Z-_:] removed and the others kept in order;
    all its characters are in that set; it is empty for the empty line and
    for a line of other characters only. *)
Theorem C5_normalize_strips (s : jsstring) :
  cleaned s = normalize_spec s
  /\ Forall (fun c => In c normalizer_charset) (cleaned s)
  /\ cleaned [] = []
  /\ cleaned (str " !?") = [].
Proof.
  split; [apply cleaned_filter|]. split; [|split; reflexivity].
  eapply Forall_impl; [|apply cleaned_charset].
  intros c. apply in_charset_In.
Qed.

(** C6: filtering a line a second time changes nothing. *)
Theorem C6_normalize_idempotent (s : jsstring) : cleaned (cleaned s) = cleaned s.
Proof. rewrite !cleaned_filter. apply filter_twice. Qed.

(** ** The wedge line assembler *)

(** C7: from the initial state (gate open, deduplication on, nothing
    captured, empty wedge buffer) the keys A, B, 1, 2, Enter store one record
    with identifier AB12 and leave the wedge buffer empty; the same keys
    again store nothing, the buffer keeps its single record and the wedge
    buffer is empty again. *)
Theorem C7_wedge_example (e1 e2 e3 e4 e5 f1 f2 f3 f4 f5 : Env) :
  tags (keys (scan_keys "A" "B" "1" "2" e1 e2 e3 e4 e5) initial)
  = [newTag (str "AB12") None e5]
  /\ buffer (keys (scan_keys "A" "B" "1" "2" e1 e2 e3 e4 e5) initial) = []
  /\ tags (keys (scan_keys "A" "B" "1" "2" f1 f2 f3 f4 f5)
             (keys (scan_keys "A" "B" "1" "2" e1 e2 e3 e4 e5) initial))
     = [newTag (str "AB12") None e5]
  /\ length (tags (keys (scan_keys "A" "B" "1" "2" f1 f2 f3 f4 f5)
                     (keys (scan_keys "A" "B" "1" "2" e1 e2 e3 e4 e5) initial)))
     = 1%nat
  /\ buffer (keys (scan_keys "A" "B" "1" "2" f1 f2 f3 f4 f5)
               (keys (scan_keys "A" "B" "1" "2" e1 e2 e3 e4 e5) initial)) = [].
Proof. repeat split; vm_compute; reflexivity. Qed.

(** C9: while [listening] is false no key event changes the state, so the
    wedge buffer keeps the partially typed line through any sequence of
    character, Backspace and Enter keys. *)
Theorem C9_keys_ignored_while_paused (st : State) :
  listening st = false ->
  (forall key env, onKeyDown key env st = st)
  /\ (forall ks, keys ks st = st)
  /\ (forall ks, buffer (keys ks st) = buffer st).
Proof.
  intros Hp.
  assert (Hks : forall ks, keys ks st = st).
  { induction ks as [|[k env] ks IH]; [reflexivity|].
    cbn [keys]. now rewrite onKeyDown_paused. }
  split; [intros; now apply onKeyDown_paused|].
  split; [exact Hks|]. intros ks. now rewrite Hks.
Qed.

Lemma C9_keys_ignored_while_paused_witness :
  buffer (keys (scan_keys "C" "D" "Backspace" "3" (env_at 1) (env_at 2)
                          (env_at 3) (env_at 4) (env_at 5)) paused)
  = str "AB"
  /\ tags (keys (scan_keys "C" "D" "Backspace" "3" (env_at 1) (env_at 2)
                           (env_at 3) (env_at 4) (env_at 5)) paused) = [].
Proof.
  destruct (C9_keys_ignored_while_paused paused) as (_ & Hks & _).
  - reflexivity.
  - rewrite Hks. split; reflexivity.
Defined.

(** ** Identifier comparison *)

Lemma nonempty_truthy (s : jsstring) : s <> [] -> truthy s = true.
Proof. destruct s; [contradiction | reflexivity]. Qed.

Lemma addTag_rejects_iff (e : jsstring) (r : option Z) (env : Env) (prev : list Tag) :
  trim e <> [] ->
  (addTag true e r env prev = prev <-> In (trim e) (map epc prev)).
Proof.
  intros Hne. split; [|apply addTag_duplicate].
  rewrite addTag_cases, (nonempty_truthy (trim e) Hne). cbn [andb].
  destruct (existsb (fun t => streq (epc t) (trim e)) prev) eqn:E.
  - intros _. now apply has_epc_spec.
  - cbn [negb]. rewrite firstn_cons. intros H.
    destruct prev as [|t prev]; [discriminate H|].
    assert (Ht : newTag (trim e) r env = t) by congruence.
    left. now rewrite <- Ht.
Qed.

Lemma addTag_stores (e : jsstring) (r : option Z) (env : Env) (prev : list Tag) :
  trim e <> [] -> ~ In (trim e) (map epc prev) ->
  addTag true e r env prev = firstn 2000 (newTag (trim e) r env :: prev).
Proof.
  intros Hne Hnew. rewrite addTag_cases, (nonempty_truthy (trim e) Hne). cbn [andb].
  destruct (existsb (fun t => streq (epc t) (trim e)) prev) eqn:E; [|reflexivity].
  apply has_epc_spec in E. contradiction.
Qed.

Lemma addTag_two (e1 e2 : jsstring) (r1 r2 : option Z) (env1 env2 : Env) :
  trim e1 <> [] -> trim e2 <> [] -> trim e1 <> trim e2 ->
  addTag true e2 r2 env2 (addTag true e1 r1 env1 [])
  = [newTag (trim e2) r2 env2; newTag (trim e1) r1 env1].
Proof.
  intros H1 H2 Hdiff.
  rewrite (addTag_stores e1 r1 env1 []) by (assumption || intros []).
  change (firstn 2000 [newTag (trim e1) r1 env1]) with [newTag (trim e1) r1 env1].
  rewrite addTag_stores; [reflexivity | assumption |].
  cbn [map epc newTag]. intros [H | []]. now apply Hdiff.
Qed.

Lemma cleaned_keeps (s : jsstring) :
  Forall (fun c => in_charset c = true) s -> cleaned s = s.
Proof.
  intros H. rewrite cleaned_filter. apply forallb_filter_id.
  apply forallb_forall. now apply Forall_forall.
Qed.

(** C10: deduplication compares identifiers by exact equality of their
    code units, letter case included.  [===] on strings holds exactly for
    equal strings; with deduplication on, an offer of a non-blank
    identifier leaves the buffer as it was exactly when its trimmed form is
    the [epc] of a record of the buffer, and otherwise its record, carrying
    that trimmed form, is put in front; so two identifiers that differ in
    any way, be it only in the case of a letter, are both stored.  In
    particular ab12 offered after AB12 was stored is stored as a second
    record, through [addTag] and through the wedge keys alike: the filter
    of a wedge line keeps every character of the set as it is, lower-case
    letters included, while a notification identifier has uppercase
    hexadecimal digits only and is unchanged by [toUpperCase]. *)
Theorem C10_case_sensitive_dedup (env1 env2 : Env) :
  (forall a b : jsstring, streq a b = true <-> a = b)
  /\ (forall e r env prev,
        trim e <> [] ->
        (addTag true e r env prev = prev <-> In (trim e) (map epc prev)))
  /\ (forall e r env prev,
        trim e <> [] -> ~ In (trim e) (map epc prev) ->
        addTag true e r env prev = firstn 2000 (newTag (trim e) r env :: prev)
        /\ map epc (addTag true e r env prev) = firstn 2000 (trim e :: map epc prev))
  /\ (forall e1 e2 r1 r2,
        trim e1 <> [] -> trim e2 <> [] -> trim e1 <> trim e2 ->
        addTag true e2 r2 env2 (addTag true e1 r1 env1 [])
        = [newTag (trim e2) r2 env2; newTag (trim e1) r1 env1]
        /\ map epc (addTag true e2 r2 env2 (addTag true e1 r1 env1 []))
           = [trim e2; trim e1])
  /\ addTag true (str "ab12") None env2 (addTag true (str "AB12") None env1 [])
     = [newTag (str "ab12") None env2; newTag (str "AB12") None env1]
  /\ map epc (addTag true (str "ab12") None env2
                (addTag true (str "AB12") None env1 []))
     = [str "ab12"; str "AB12"]
  /\ tags (keys (scan_keys "a" "b" "1" "2" env2 env2 env2 env2 env2)
             (keys (scan_keys "A" "B" "1" "2" env1 env1 env1 env1 env1) initial))
     = [newTag (str "ab12") None env2; newTag (str "AB12") None env1]
  /\ (forall s, Forall (fun c => in_charset c = true) s -> cleaned s = s)
  /\ cleaned (str "ab12") = str "ab12"
  /\ forall data e,
       epcOfData data = Some e ->
       Forall (fun c => is_upper_hex c = true) e /\ toUpperCase e = e.
Proof.
  split; [exact streq_spec|].
  split; [intros e r env prev; apply addTag_rejects_iff|].
  split.
  { intros e r env prev Hne Hnew.
    rewrite (addTag_stores e r env prev Hne Hnew). split; [reflexivity|].
    rewrite <- firstn_map. reflexivity. }
  split.
  { intros e1 e2 r1 r2 H1 H2 Hd.
    rewrite (addTag_two e1 e2 r1 r2 env1 env2 H1 H2 Hd). split; reflexivity. }
  split; [vm_compute; reflexivity|]. split; [vm_compute; reflexivity|].
  split; [vm_compute; reflexivity|].
  split; [exact cleaned_keeps|]. split; [reflexivity|].
  intros data e He. apply epcOfData_upper in He as (bs & ->).
  assert (H := upper_hex_spec_digits bs). split; [exact H|].
  unfold toUpperCase. induction H as [|c l Hc Hl IH]; [reflexivity|].
  cbn [map]. now rewrite upper_hex_fixed, IH.
Qed.

Lemma C10_case_sensitive_dedup_witness :
  (addTag true (str "AB12") None (env_at 3) [newTag (str "AB12") None (env_at 1)]
   = [newTag (str "AB12") None (env_at 1)])
  /\ map epc (addTag true (str "ab12") None (env_at 3)
                [newTag (str "AB12") None (env_at 1)])
     = firstn 2000 [str "ab12"; str "AB12"]
  /\ map epc (addTag true (str " Ab12 ") None (env_at 2)
                (addTag true (str "AB12") None (env_at 1) []))
     = [str "Ab12"; str "AB12"]
  /\ cleaned (str "aB-1") = str "aB-1"
  /\ Forall (fun c => is_upper_hex c = true) (str "E20AFF")
  /\ toUpperCase (str "E20AFF") = str "E20AFF".
Proof.
  destruct (C10_case_sensitive_dedup (env_at 1) (env_at 2))
    as (_ & Hrej & Hsto & Htwo & _ & _ & _ & Hkeep & _ & Hup).
  split.
  { apply (Hrej (str "AB12") None (env_at 3) [newTag (str "AB12") None (env_at 1)]).
    - discriminate.
    - left. reflexivity. }
  split.
  { apply (Hsto (str "ab12") None (env_at 3) [newTag (str "AB12") None (env_at 1)]).
    - discriminate.
    - intros [H | []]. discriminate H. }
  split.
  { apply (Htwo (str "AB12") (str " Ab12 ") None None); discriminate. }
  split.
  { apply (Hkeep (str "aB-1")). repeat constructor. }
  apply (Hup short_payload). reflexivity.
Defined.

(** * Further properties of the component *)

(** ** Keys of the wedge input *)

Lemma keys_app (ks1 ks2 : list (jsstring * Env)) (st : State) :
  keys (ks1 ++ ks2) st = keys ks2 (keys ks1 st).
Proof.
  revert st. induction ks1 as [|[k env] ks1 IH]; intros st; [reflexivity|].
  cbn [app keys]. apply IH.
Qed.

Lemma single_key_not_named (key : jsstring) (name : string) :
  length key = 1%nat -> length (str name) <> 1%nat -> streq key (str name) = false.
Proof.
  intros Hk Hn. destruct (streq key (str name)) eqn:E; [|reflexivity].
  apply streq_spec in E. congruence.
Qed.

Lemma onKeyDown_char (key : jsstring) (env : Env) (st : State) :
  listening st = true -> length key = 1%nat ->
  onKeyDown key env st = setBuffer (fun b => b ++ key) st.
Proof.
  intros Hl Hk. unfold onKeyDown. rewrite Hl. cbn [negb].
  rewrite (single_key_not_named key "Enter") by (assumption || discriminate).
  now rewrite Hk.
Qed.

(** Keys of one character typed while capture is on are appended to the
    wedge buffer in the order typed; nothing else of the state changes. *)
Theorem typing_appends (ks : list (jsstring * Env)) (st : State) :
  listening st = true ->
  Forall (fun k => length (fst k) = 1%nat) ks ->
  keys ks st = setBuffer (fun b => b ++ concat (map fst ks)) st.
Proof.
  intros Hl Hks. revert st Hl.
  induction Hks as [|[k env] ks Hk Hks IH]; intros st Hl.
  - cbn [keys map concat]. destruct st. unfold setBuffer. cbn.
    now rewrite app_nil_r.
  - cbn [keys map concat fst]. cbn [fst] in Hk.
    rewrite onKeyDown_char by assumption.
    rewrite IH by exact Hl. unfold setBuffer. cbn.
    now rewrite app_assoc.
Qed.

Lemma typing_appends_witness :
  keys [(str "A", env_at 1); (str "B", env_at 2)] initial
  = setBuffer (fun b => b ++ str "AB") initial.
Proof.
  apply (typing_appends [(str "A", env_at 1); (str "B", env_at 2)] initial).
  - reflexivity.
  - repeat constructor.
Defined.

Lemma onKeyDown_backspace (env : Env) (st : State) :
  listening st = true ->
  onKeyDown (str "Backspace") env st = setBuffer (@removelast char16) st.
Proof.
  intros Hl. unfold onKeyDown. rewrite Hl. cbn [negb].
  change (streq (str "Backspace") (str "Enter")) with false.
  change (length (str "Backspace") =? 1)%nat with false.
  change (streq (str "Backspace") (str "Backspace")) with true.
  cbv iota. unfold setBuffer. now rewrite slice_drop_last.
Qed.

(** While capture is on, Backspace removes the last character of the wedge
    buffer and nothing else; on an empty wedge buffer it changes nothing;
    pressed right after a character key it restores the state from before
    that key. *)
Theorem backspace_removes_last (env env' : Env) (st : State) :
  listening st = true ->
  buffer (onKeyDown (str "Backspace") env st) = removelast (buffer st)
  /\ tags (onKeyDown (str "Backspace") env st) = tags st
  /\ (buffer st = [] -> onKeyDown (str "Backspace") env st = st)
  /\ forall c : char16,
       onKeyDown (str "Backspace") env (onKeyDown [c] env' st) = st.
Proof.
  intros Hl. rewrite onKeyDown_backspace by assumption.
  split; [reflexivity|]. split; [reflexivity|]. split.
  - intros Hb. destruct st. unfold setBuffer. cbn in *. now rewrite Hb.
  - intros c. rewrite (onKeyDown_char [c] env' st) by (assumption || reflexivity).
    rewrite onKeyDown_backspace by exact Hl.
    destruct st. unfold setBuffer. cbn. now rewrite removelast_last.
Qed.

Lemma backspace_removes_last_witness :
  buffer (onKeyDown (str "Backspace") (env_at 1) (togglePause paused)) = str "A"
  /\ onKeyDown (str "Backspace") (env_at 1)
       (onKeyDown (str "C") (env_at 2) (togglePause paused))
     = togglePause paused.
Proof.
  destruct (backspace_removes_last (env_at 1) (env_at 2) (togglePause paused))
    as (H1 & _ & _ & H4).
  - reflexivity.
  - split; [exact H1 | exact (H4 67%N)].
Defined.

Lemma handleLine_setBuffer (f : jsstring -> jsstring) (line : jsstring)
      (env : Env) (st : State) :
  handleLine line env (setBuffer f st) = setBuffer f (handleLine line env st).
Proof.
  unfold handleLine. cbn [listening setBuffer autoDedup].
  destruct (listening st); cbn [negb]; [|reflexivity].
  now destruct (truthy (cleaned line)).
Qed.

Lemma typed_keys (line : jsstring) (env : Env) :
  concat (map fst (typed line env)) = line.
Proof.
  unfold typed. induction line as [|c l IH]; [reflexivity|].
  cbn [map concat fst app]. now rewrite IH.
Qed.

(** A scan while capture is on: the characters of a line typed one per key
    and then Enter have the effect of [handleLine] on the wedge buffer
    extended by the line, and leave the wedge buffer empty. *)
Theorem scan_is_handleLine (line : jsstring) (env env' : Env) (st : State) :
  listening st = true ->
  keys (typed line env ++ [(str "Enter", env')]) st
  = setBuffer (fun _ => []) (handleLine (buffer st ++ line) env' st).
Proof.
  intros Hl. rewrite keys_app.
  rewrite (typing_appends (typed line env) st); [|exact Hl|].
  - rewrite typed_keys. cbn [keys]. unfold onKeyDown.
    replace (listening (setBuffer _ st)) with true by (symmetry; exact Hl).
    cbn [negb]. change (streq (str "Enter") (str "Enter")) with true. cbv iota.
    rewrite handleLine_setBuffer. reflexivity.
  - unfold typed. apply Forall_forall. intros k Hk.
    apply in_map_iff in Hk as (c & <- & _). reflexivity.
Qed.

Lemma scan_is_handleLine_witness :
  keys (typed (str "AB12") (env_at 1) ++ [(str "Enter", env_at 2)]) initial
  = setBuffer (fun _ => []) (handleLine (buffer initial ++ str "AB12") (env_at 2) initial).
Proof.
  apply (scan_is_handleLine (str "AB12") (env_at 1) (env_at 2) initial).
  reflexivity.
Defined.

(** ** Lines and identifiers *)

Lemma cleaned_twice (s : jsstring) : cleaned (cleaned s) = cleaned s.
Proof. rewrite !cleaned_filter. apply filter_twice. Qed.

(** [handleLine] sees a line only through its filtered form: characters
    outside the set make no difference, and a line without any character of
    the set changes nothing.  While capture is on the identifier looked up
    and stored is exactly the filtered line ([trim] has nothing to
    remove). *)
Theorem handleLine_filtered (line : jsstring) (env : Env) (st : State) :
  handleLine line env st = handleLine (cleaned line) env st
  /\ (cleaned line = [] -> handleLine line env st = st)
  /\ (listening st = true ->
      tags (handleLine line env st)
      = if truthy (cleaned line)
           && negb (autoDedup st
                    && existsb (fun t => streq (epc t) (cleaned line)) (tags st))
        then firstn 2000 (newTag (cleaned line) None env :: tags st)
        else tags st).
Proof.
  split; [|split].
  - unfold handleLine. now rewrite cleaned_twice.
  - intros H. unfold handleLine. rewrite H. cbn [truthy].
    now destruct (negb (listening st)).
  - intros Hl. unfold handleLine. rewrite Hl. cbn [negb].
    destruct (truthy (cleaned line)) eqn:E; [|reflexivity].
    unfold setTags. cbn [tags]. rewrite addTag_cases, cleaned_trim, E.
    reflexivity.
Qed.

Lemma handleLine_filtered_witness :
  handleLine (str " ?! ") (env_at 1) initial = initial
  /\ tags (handleLine (str " a-1 ") (env_at 1) initial)
     = [newTag (str "a-1") None (env_at 1)].
Proof.
  destruct (handleLine_filtered (str " ?! ") (env_at 1) initial) as (_ & H & _).
  destruct (handleLine_filtered (str " a-1 ") (env_at 1) initial) as (_ & _ & H').
  split; [apply H; reflexivity | rewrite H' by reflexivity; reflexivity].
Defined.

Lemma trimStart_blank (s : jsstring) :
  Forall (fun c => isWhiteSpace c = true) s -> trimStart s = [].
Proof.
  induction 1 as [|c r Hc Hr IH]; [reflexivity|]. cbn [trimStart]. now rewrite Hc.
Qed.

(** [addTag] sees its argument only through [trim]: surrounding white space
    makes no difference to what is looked up and stored, and an argument of
    white space only (or empty) leaves the buffer as it was. *)
Theorem addTag_trims (d : bool) (e : jsstring) (r : option Z) (env : Env)
        (prev : list Tag) :
  addTag d e r env prev = addTag d (trim e) r env prev
  /\ (Forall (fun c => isWhiteSpace c = true) e -> addTag d e r env prev = prev).
Proof.
  split.
  - unfold addTag. cbv zeta. now rewrite trim_idem.
  - intros Hb. unfold addTag. cbv zeta. unfold trim.
    rewrite trimStart_blank by assumption. reflexivity.
Qed.

Lemma addTag_trims_witness :
  addTag true (str "  ") None (env_at 1) [] = [].
Proof.
  destruct (addTag_trims true (str "  ") None (env_at 1) []) as [_ H].
  apply H. repeat constructor.
Defined.

(** ** The buffer as a window on the storage history *)

Lemma firstn_cons_firstn {A : Type} (n : nat) (x : A) (l : list A) :
  firstn n (x :: firstn n l) = firstn n (x :: l).
Proof.
  destruct n as [|m]; [reflexivity|].
  rewrite !firstn_cons, firstn_firstn. f_equal. f_equal. lia.
Qed.

Lemma offer_all_window (os : list Offer) (before : list Tag) :
  offer_all os (firstn 2000 (rev before))
  = firstn 2000 (rev (before ++ stored os (firstn 2000 (rev before)))).
Proof.
  revert before. induction os as [|o os IH]; intros before.
  - cbn [offer_all stored]. now rewrite app_nil_r.
  - cbn [offer_all stored]. rewrite offer_cases.
    destruct (inserts o (firstn 2000 (rev before))).
    + set (new := newTag _ _ _).
      rewrite firstn_cons_firstn.
      replace (new :: rev before) with (rev (before ++ [new]))
        by (rewrite rev_app_distr; reflexivity).
      rewrite IH. now rewrite <- app_assoc.
    + cbn [app]. apply IH.
Qed.

(** After any sequence of offers from the empty buffer, the buffer is
    exactly the 2000 most recently stored records, the newest first; its
    length is the number of records stored so far, capped at 2000. *)
Theorem buffer_is_recent_window (os : list Offer) :
  offer_all os [] = firstn 2000 (rev (stored os []))
  /\ length (offer_all os []) = Nat.min 2000 (length (stored os [])).
Proof.
  assert (H : offer_all os [] = firstn 2000 (rev (stored os []))).
  { assert (W := offer_all_window os []).
    change (rev (@nil Tag)) with (@nil Tag) in W.
    rewrite firstn_nil in W. exact W. }
  split; [exact H|]. rewrite H at 1. now rewrite length_firstn, length_rev.
Qed.

(** ** The notification payload, further *)

Lemma first_occurrence (x : byte) (data : list byte) :
  ~ In x data \/ exists pre post, data = pre ++ x :: post /\ ~ In x pre.
Proof.
  induction data as [|b data IH]; [left; intros []|].
  destruct (Byte.eqb b x) eqn:E.
  - apply Byte.byte_dec_bl in E. subst b. right. exists [], data.
    split; [reflexivity | intros []].
  - apply Byte.eqb_false in E. destruct IH as [Hno | (pre & post & -> & Hpre)].
    + left. intros [H | H]; [exact (E H) | exact (Hno H)].
    + right. exists (b :: pre), post. split; [reflexivity|].
      intros [H | H]; [exact (E H) | exact (Hpre H)].
Qed.

(** A payload gives no identifier exactly when it holds no marker byte
    (the empty payload included), and then the listener leaves the state as
    it was; so does an event without a value. *)
Theorem no_marker_no_record (data : list byte) :
  (epcOfData data = None <-> ~ In xe2 data)
  /\ (~ In xe2 data ->
      forall d env st, onCharacteristicValueChanged d (Some data) env st = st)
  /\ (forall d env st, onCharacteristicValueChanged d None env st = st).
Proof.
  split; [split|split].
  - intros Hnone. destruct (first_occurrence xe2 data) as [H | (pre & post & -> & Hpre)];
      [exact H|]. rewrite epcOfData_found in Hnone by assumption. discriminate.
  - apply epcOfData_absent.
  - intros H d env st. unfold onCharacteristicValueChanged.
    now rewrite epcOfData_absent.
  - reflexivity.
Qed.

Lemma no_marker_no_record_witness :
  onCharacteristicValueChanged true (Some [x01; x02; x03]) (env_at 1) initial
  = initial.
Proof.
  destruct (no_marker_no_record [x01; x02; x03]) as (_ & H & _).
  apply H. intros [H' | [H' | [H' | []]]]; discriminate H'.
Defined.

(** Every identifier computed from a payload is the uppercase hexadecimal
    form of a field that starts at the first marker byte of the payload and
    has 12 bytes, or fewer when the payload ends before: it has two
    characters per byte, between 2 and 24 in all, and starts with E2. *)
Theorem identifier_shape (data : list byte) (e : jsstring) :
  epcOfData data = Some e ->
  exists pre field rest,
    data = pre ++ (xe2 :: field) ++ rest
    /\ ~ In xe2 pre
    /\ (length (xe2 :: field) = 12%nat
        \/ (length (xe2 :: field) < 12)%nat /\ rest = [])
    /\ e = upper_hex_spec (xe2 :: field)
    /\ length e = (2 * length (xe2 :: field))%nat
    /\ (2 <= length e <= 24)%nat
    /\ firstn 2 e = str "E2".
Proof.
  intros He.
  destruct (first_occurrence xe2 data) as [H | (pre & post & -> & Hpre)].
  - rewrite epcOfData_absent in He by assumption. discriminate.
  - rewrite epcOfData_found in He by assumption.
    change (firstn 12 (xe2 :: post)) with (xe2 :: firstn 11 post) in He.
    assert (Ee : e = upper_hex_spec (xe2 :: firstn 11 post)) by congruence.
    clear He. exists pre, (firstn 11 post), (skipn 11 post).
    assert (Hlen : length (xe2 :: firstn 11 post) = 12%nat
                   \/ (length (xe2 :: firstn 11 post) < 12)%nat
                      /\ skipn 11 post = []).
    { cbn [length]. rewrite length_firstn.
      destruct (Nat.le_gt_cases 11 (length post)) as [Hge | Hlt].
      - left. lia.
      - right. split; [lia|]. apply skipn_all2. lia. }
    split; [cbn [app]; now rewrite firstn_skipn|].
    split; [exact Hpre|]. split; [exact Hlen|]. split; [exact Ee|].
    rewrite Ee, upper_hex_spec_length.
    split; [reflexivity|]. split; [|reflexivity].
    destruct Hlen as [-> | [Hlt _]]; [lia|]. cbn [length] in *. lia.
Qed.

Lemma identifier_shape_witness :
  exists pre field rest,
    short_payload = pre ++ (xe2 :: field) ++ rest
    /\ ~ In xe2 pre
    /\ (length (xe2 :: field) = 12%nat
        \/ (length (xe2 :: field) < 12)%nat /\ rest = [])
    /\ str "E20AFF" = upper_hex_spec (xe2 :: field)
    /\ length (str "E20AFF") = (2 * length (xe2 :: field))%nat
    /\ (2 <= length (str "E20AFF") <= 24)%nat
    /\ firstn 2 (str "E20AFF") = str "E2".
Proof. apply (identifier_shape short_payload (str "E20AFF")). reflexivity. Defined.

Lemma upper_hex_digits_NoDup : NoDup upper_hex_digits.
Proof.
  apply (NoDup_map_inv N.to_nat).
  change (map N.to_nat upper_hex_digits)
    with ((seq 48 10) ++ (seq 65 6)).
  apply NoDup_app; [apply seq_NoDup | apply seq_NoDup |].
  intros x H1 H2. apply in_seq in H1. apply in_seq in H2. lia.
Qed.

Lemma nibbles_small (b : byte) :
  (N.to_nat (Byte.to_N b / 16) < 16)%nat /\ (N.to_nat (Byte.to_N b mod 16) < 16)%nat.
Proof.
  assert (Hb := Byte.to_N_bounded b).
  split.
  - assert (Byte.to_N b / 16 < 16)%N by (apply N.Div0.div_lt_upper_bound; lia). lia.
  - assert (Byte.to_N b mod 16 < 16)%N by (apply N.mod_lt; lia). lia.
Qed.

Lemma hex_pair_inj (a b : byte) :
  nth (N.to_nat (Byte.to_N a / 16)) upper_hex_digits 0%N
  = nth (N.to_nat (Byte.to_N b / 16)) upper_hex_digits 0%N ->
  nth (N.to_nat (Byte.to_N a mod 16)) upper_hex_digits 0%N
  = nth (N.to_nat (Byte.to_N b mod 16)) upper_hex_digits 0%N ->
  a = b.
Proof.
  intros Hhi Hlo.
  destruct (nibbles_small a) as [Ha1 Ha2]. destruct (nibbles_small b) as [Hb1 Hb2].
  assert (Hinj := proj1 (NoDup_nth upper_hex_digits 0%N) upper_hex_digits_NoDup).
  apply Hinj in Hhi; [|exact Ha1 | exact Hb1].
  apply Hinj in Hlo; [|exact Ha2 | exact Hb2].
  apply N2Nat.inj in Hhi. apply N2Nat.inj in Hlo.
  assert (HN : Byte.to_N a = Byte.to_N b).
  { rewrite (N.div_mod (Byte.to_N a) 16), (N.div_mod (Byte.to_N b) 16) by lia.
    now rewrite Hhi, Hlo. }
  assert (Hs : Some a = Some b) by (rewrite <- !Byte.of_to_N; now rewrite HN).
  now injection Hs.
Qed.

Lemma upper_hex_spec_inj (bs1 bs2 : list byte) :
  upper_hex_spec bs1 = upper_hex_spec bs2 -> bs1 = bs2.
Proof.
  revert bs2. unfold upper_hex_spec.
  induction bs1 as [|a bs1 IH]; intros [|b bs2]; cbn [flat_map app];
    try discriminate; [reflexivity|].
  intros H. injection H as Hhi Hlo Hrest.
  f_equal; [now apply hex_pair_inj | now apply IH].
Qed.

(** Two payloads give the same identifier exactly when the fields at their
    first markers (the 11 bytes after the marker, or those there are) are
    the same: bytes before the marker and past the field play no part, and
    different fields never share an identifier. *)
Theorem identifier_determines_field (pre1 post1 pre2 post2 : list byte) :
  ~ In xe2 pre1 -> ~ In xe2 pre2 ->
  (epcOfData (pre1 ++ xe2 :: post1) = epcOfData (pre2 ++ xe2 :: post2)
   <-> firstn 11 post1 = firstn 11 post2).
Proof.
  intros H1 H2. rewrite !epcOfData_found by assumption.
  change (firstn 12 (xe2 :: post1)) with (xe2 :: firstn 11 post1).
  change (firstn 12 (xe2 :: post2)) with (xe2 :: firstn 11 post2).
  split.
  - intros H.
    assert (H' : upper_hex_spec (xe2 :: firstn 11 post1)
                 = upper_hex_spec (xe2 :: firstn 11 post2)) by congruence.
    apply upper_hex_spec_inj in H'. congruence.
  - now intros ->.
Qed.

Lemma identifier_determines_field_witness :
  epcOfData ([x01] ++ xe2 :: [x0a; xff]) = epcOfData ([x01; x02] ++ xe2 :: [x0a; xff]).
Proof.
  apply (identifier_determines_field [x01] [x0a; xff] [x01; x02] [x0a; xff]).
  - intros [H | []]; discriminate H.
  - intros [H | [H | []]]; discriminate H.
  - reflexivity.
Defined.

(** ** Sessions *)

Lemma in_firstn_in {A : Type} (n : nat) (x : A) (l : list A) :
  In x (firstn n l) -> In x l.
Proof.
  intros H. rewrite <- (firstn_skipn n l). apply in_or_app. now left.
Qed.

Lemma addTag_Forall (P : Tag -> Prop) (d : bool) (e : jsstring) (r : option Z)
      (env : Env) (prev : list Tag) :
  Forall P prev ->
  (truthy (trim e) = true -> P (newTag (trim e) r env)) ->
  Forall P (addTag d e r env prev).
Proof.
  intros Hprev Hnew. rewrite addTag_cases.
  destruct (truthy (trim e)) eqn:E; cbn [andb]; [|exact Hprev].
  destruct (negb _); [|exact Hprev].
  apply Forall_forall. intros t Ht. apply in_firstn_in in Ht.
  destruct Ht as [<- | Ht]; [now apply Hnew|].
  rewrite Forall_forall in Hprev. now apply Hprev.
Qed.

Lemma addTag_length (d : bool) (e : jsstring) (r : option Z) (env : Env)
      (prev : list Tag) :
  (length prev <= 2000)%nat -> (length (addTag d e r env prev) <= 2000)%nat.
Proof.
  intros H. rewrite addTag_cases. destruct (_ && _); [|exact H].
  apply firstn_le_length.
Qed.

Lemma addTag_unique (e : jsstring) (r : option Z) (env : Env) (prev : list Tag) :
  NoDup (map epc prev) -> NoDup (map epc (addTag true e r env prev)).
Proof.
  apply (offer_unique {| o_dedup := true; o_epcRaw := e; o_rssi := r; o_env := env |}).
  reflexivity.
Qed.

Lemma addTag_present (d : bool) (e : jsstring) (r : option Z) (env : Env)
      (prev : list Tag) :
  truthy (trim e) = true -> In (trim e) (map epc (addTag d e r env prev)).
Proof.
  intros He. rewrite addTag_cases, He. cbn [andb].
  destruct (d && existsb _ prev) eqn:E; cbn [negb].
  - apply andb_true_iff in E as [_ E]. now apply has_epc_spec.
  - change (firstn 2000 (newTag (trim e) r env :: prev))
      with (newTag (trim e) r env :: firstn 1999 prev).
    now left.
Qed.

Lemma upper_hex_in_charset (c : char16) :
  is_upper_hex c = true -> in_charset c = true.
Proof.
  intros H. destruct (N.lt_ge_cases c 123) as [Hlt | Hge].
  - apply (below_forall (fun c => implb (is_upper_hex c) (in_charset c)) 123)
      in Hlt; [|vm_compute; reflexivity].
    now rewrite H in Hlt.
  - unfold is_upper_hex in H.
    rewrite (not_listed_above 123) in H by (vm_compute; reflexivity || exact Hge).
    discriminate.
Qed.

Lemma epcOfData_form (data : list byte) (e : jsstring) :
  epcOfData data = Some e ->
  e <> [] /\ Forall (fun c => in_charset c = true) e /\ trim e = e /\ cleaned e = e.
Proof.
  intros He.
  destruct (first_occurrence xe2 data) as [H | (pre & post & -> & Hpre)].
  - rewrite epcOfData_absent in He by assumption. discriminate.
  - rewrite epcOfData_found in He by assumption.
    change (firstn 12 (xe2 :: post)) with (xe2 :: firstn 11 post) in He.
    assert (Ee : e = upper_hex_spec (xe2 :: firstn 11 post)) by congruence.
    clear He.
    assert (Hcs : Forall (fun c => in_charset c = true) e).
    { rewrite Ee. eapply Forall_impl; [|apply upper_hex_spec_digits].
      exact upper_hex_in_charset. }
    split; [rewrite Ee; discriminate|]. split; [exact Hcs|].
    split; [rewrite Ee; apply upper_hex_spec_trim|].
    rewrite cleaned_filter. apply forallb_filter_id.
    apply forallb_forall. now apply Forall_forall.
Qed.

Lemma truthy_nonempty (s : jsstring) : truthy s = true <-> s <> [].
Proof. destruct s; cbn; split; congruence. Qed.

(** What one event does to [tags]: nothing, or the clear, or one call of
    [addTag] with a non-empty identifier over the character set and with the
    deduplication flag of the handler. *)
Lemma step_tags (ev : Event) (st : State) :
  tags (step ev st) = tags st
  \/ tags (step ev st) = []
  \/ exists d e env,
       tags (step ev st) = addTag d e None env (tags st)
       /\ e <> [] /\ Forall (fun c => in_charset c = true) e /\ trim e = e
       /\ (dedup_kept ev -> autoDedup st = true -> d = true).
Proof.
  destruct ev as [key env | d value env | | | checked]; cbn [step].
  - unfold onKeyDown. destruct (negb (listening st)) eqn:Hl; [now left|].
    destruct (streq key (str "Enter")).
    + cbn [setBuffer tags]. unfold handleLine. rewrite Hl.
      destruct (truthy (cleaned (buffer st))) eqn:E; [|now left].
      right. right. exists (autoDedup st), (cleaned (buffer st)), env.
      split; [reflexivity|]. split; [now apply truthy_nonempty|].
      split; [apply cleaned_charset|]. split; [apply cleaned_trim | auto].
    + left. destruct (length key =? 1)%nat; [reflexivity|].
      now destruct (streq key (str "Backspace")).
  - unfold onCharacteristicValueChanged. destruct value as [data|]; [|now left].
    destruct (epcOfData data) as [e|] eqn:E; [|now left].
    right. right. exists d, e, env. apply epcOfData_form in E as (E1 & E2 & E3 & _).
    repeat split; auto.
  - now left.
  - right. now left.
  - now left.
Qed.

Lemma run_preserves (P : State -> Prop) (G : Event -> Prop) :
  (forall ev st, G ev -> P st -> P (step ev st)) ->
  forall evs st, Forall G evs -> P st -> P (run evs st).
Proof.
  intros Hstep evs. induction evs as [|ev evs IH]; intros st HG HP; [exact HP|].
  inversion HG; subst. cbn [run]. apply IH; auto.
Qed.

Lemma run_captured (evs : list Event) :
  (length (tags (run evs initial)) <= 2000)%nat
  /\ Forall captured_form (tags (run evs initial)).
Proof.
  apply (run_preserves
           (fun st => (length (tags st) <= 2000)%nat /\ Forall captured_form (tags st))
           (fun _ => True)).
  - intros ev st _ [Hlen Hform].
    destruct (step_tags ev st) as [-> | [-> | (d & e & env & -> & He & Hcs & Htrim & _)]].
    + now split.
    + split; [cbn; lia | constructor].
    + split; [now apply addTag_length|].
      apply addTag_Forall; [exact Hform|]. intros _. rewrite Htrim.
      now repeat split.
  - apply Forall_forall. trivial.
  - split; [cbn; lia | constructor].
Qed.

(** Whatever happens in a session (keys, notifications, pause, clear,
    checkbox, in any order), the buffer never holds more than 2000 records,
    and every record in it has a non-empty identifier made of characters of
    [0-9a-zA-Z-_:] only and no [rssi]. *)
Theorem session_invariant (evs : list Event) :
  (length (tags (run evs initial)) <= 2000)%nat
  /\ Forall captured_form (tags (run evs initial)).
Proof.
  apply run_captured.
Qed.

(** As long as the deduplication checkbox stays ticked and every listener
    was installed while it was, no two records of the buffer have the same
    identifier, whatever else happens in the session. *)
Theorem session_unique (evs : list Event) :
  Forall dedup_kept evs ->
  NoDup (map epc (tags (run evs initial))).
Proof.
  intros Hk.
  apply (run_preserves
           (fun st => autoDedup st = true /\ NoDup (map epc (tags st)))
           dedup_kept) with (evs := evs) (st := initial); auto.
  - intros ev st Hev [Hd Hu]. split.
    + destruct ev as [key env | d value env | | | checked]; cbn [step].
      * unfold onKeyDown, handleLine.
        destruct (listening st); cbn [negb]; [|exact Hd].
        destruct (streq key (str "Enter")).
        -- now destruct (truthy (cleaned (buffer st))).
        -- destruct (length key =? 1)%nat; [exact Hd|].
           now destruct (streq key (str "Backspace")).
      * unfold onCharacteristicValueChanged. destruct value as [data|]; [|exact Hd].
        now destruct (epcOfData data).
      * exact Hd.
      * exact Hd.
      * exact Hev.
    + destruct (step_tags ev st) as [-> | [-> | (d & e & env & -> & _ & _ & _ & Hdd)]].
      * exact Hu.
      * constructor.
      * rewrite (Hdd Hev Hd). now apply addTag_unique.
  - split; [reflexivity | constructor].
Qed.

Lemma session_unique_witness :
  NoDup (map epc (tags (run sample_session initial))).
Proof.
  apply (session_unique sample_session). repeat constructor.
Defined.

Lemma setTags_same (f : list Tag -> list Tag) (st : State) :
  f (tags st) = tags st -> setTags f st = st.
Proof. intros H. destruct st. unfold setTags. cbn in *. now rewrite H. Qed.

(** The two input modes meet in one buffer: once a notification has been
    handled, the identifier it carries is in the buffer, and typing that
    identifier in the wedge input (capture and deduplication on) is
    rejected as a duplicate. *)
Theorem notified_then_typed_is_duplicate (d : bool) (data : list byte)
        (e : jsstring) (env env' : Env) (st : State) :
  epcOfData data = Some e ->
  In e (map epc (tags (onCharacteristicValueChanged d (Some data) env st)))
  /\ (listening st = true -> autoDedup st = true ->
      handleLine e env' (onCharacteristicValueChanged d (Some data) env st)
      = onCharacteristicValueChanged d (Some data) env st).
Proof.
  intros He. destruct (epcOfData_form data e He) as (Hne & _ & Htrim & Hclean).
  assert (Hin : In e (map epc (tags (onCharacteristicValueChanged d (Some data) env st)))).
  { unfold onCharacteristicValueChanged. rewrite He. cbn [setTags tags].
    rewrite <- Htrim at 1. apply addTag_present. rewrite Htrim.
    now apply truthy_nonempty. }
  split; [exact Hin|]. intros Hl Hd.
  set (st1 := onCharacteristicValueChanged d (Some data) env st) in *.
  assert (Hl1 : listening st1 = true).
  { unfold st1, onCharacteristicValueChanged. now rewrite He. }
  assert (Hd1 : autoDedup st1 = true).
  { unfold st1, onCharacteristicValueChanged. now rewrite He. }
  unfold handleLine. rewrite Hl1, Hclean, Hd1. cbn [negb].
  replace (truthy e) with true by (symmetry; now apply truthy_nonempty).
  apply setTags_same. apply addTag_duplicate. now rewrite Htrim.
Qed.

Lemma notified_then_typed_is_duplicate_witness :
  handleLine (str "E20AFF") (env_at 2)
    (onCharacteristicValueChanged true (Some short_payload) (env_at 1) initial)
  = onCharacteristicValueChanged true (Some short_payload) (env_at 1) initial.
Proof.
  destruct (notified_then_typed_is_duplicate true short_payload (str "E20AFF")
              (env_at 1) (env_at 2) initial) as [_ H]; [reflexivity|].
  apply H; reflexivity.
Defined.

(** What each handler leaves alone: only the pause button changes
    [listening], only the checkbox changes [autoDedup], only keys change the
    wedge buffer, and a key other than Enter never changes the buffer of
    tags. *)
Theorem step_frame (ev : Event) (st : State) :
  (ev <> PauseButton -> listening (step ev st) = listening st)
  /\ ((forall checked, ev <> DedupCheckbox checked) ->
      autoDedup (step ev st) = autoDedup st)
  /\ ((forall key env, ev <> KeyDown key env) -> buffer (step ev st) = buffer st)
  /\ (forall key env, ev = KeyDown key env -> key <> str "Enter" ->
      tags (step ev st) = tags st).
Proof.
  assert (Hkey : forall key env,
             listening (onKeyDown key env st) = listening st
             /\ autoDedup (onKeyDown key env st) = autoDedup st
             /\ (key <> str "Enter" -> tags (onKeyDown key env st) = tags st)).
  { intros key env. unfold onKeyDown, handleLine.
    destruct (listening st) eqn:Hl; cbn [negb]; [|now rewrite Hl].
    destruct (streq key (str "Enter")) eqn:E.
    - apply streq_spec in E.
      destruct (truthy (cleaned (buffer st))); cbn; repeat split; auto;
        intros H; contradiction.
    - destruct (length key =? 1)%nat; [cbn; auto|].
      destruct (streq key (str "Backspace")); cbn; auto. }
  assert (Hnote : forall d value env,
             listening (onCharacteristicValueChanged d value env st) = listening st
             /\ autoDedup (onCharacteristicValueChanged d value env st) = autoDedup st
             /\ buffer (onCharacteristicValueChanged d value env st) = buffer st).
  { intros d value env. unfold onCharacteristicValueChanged.
    destruct value as [data|]; [|auto]. destruct (epcOfData data); cbn; auto. }
  split; [|split; [|split]].
  - intros Hev. destruct ev; cbn [step]; try reflexivity;
      [apply Hkey | apply Hnote | contradiction].
  - intros Hev. destruct ev as [| | | | checked]; cbn [step]; try reflexivity;
      [apply Hkey | apply Hnote | exfalso; now apply (Hev checked)].
  - intros Hev. destruct ev as [key env | | | |]; cbn [step]; try reflexivity;
      [exfalso; now apply (Hev key env) | apply Hnote].
  - intros key env -> Hne. cbn [step]. now apply Hkey.
Qed.

Lemma step_frame_witness :
  buffer (step (Notification true (Some short_payload) (env_at 1)) paused)
  = buffer paused
  /\ tags (step (KeyDown (str "A") (env_at 1)) initial) = tags initial.
Proof.
  destruct (step_frame (Notification true (Some short_payload) (env_at 1)) paused)
    as (_ & _ & H & _).
  destruct (step_frame (KeyDown (str "A") (env_at 1)) initial) as (_ & _ & _ & H').
  split.
  - apply H. intros key env. discriminate.
  - apply (H' (str "A") (env_at 1)); [reflexivity | discriminate].
Defined.

Lemma keys_paused (ks : list (jsstring * Env)) (st : State) :
  listening st = false -> keys ks st = st.
Proof.
  intros Hp. induction ks as [|[k env] ks IH]; [reflexivity|].
  cbn [keys]. now rewrite onKeyDown_paused.
Qed.

(** Keys pressed between a pause and the resume are lost without trace:
    after the resume the state, the partially typed line included, is the
    one from before the pause. *)
Theorem keys_during_pause_dropped (ks : list (jsstring * Env)) (st : State) :
  listening st = true ->
  togglePause (keys ks (togglePause st)) = st.
Proof.
  intros Hl. rewrite keys_paused.
  - destruct st. unfold togglePause, setListening. cbn. now rewrite negb_involutive.
  - unfold togglePause, setListening. cbn. now rewrite Hl.
Qed.

Lemma keys_during_pause_dropped_witness :
  togglePause
    (keys (scan_keys "C" "D" "Backspace" "3" (env_at 1) (env_at 2) (env_at 3)
                     (env_at 4) (env_at 5))
          (togglePause initial))
  = initial.
Proof.
  apply (keys_during_pause_dropped
           (scan_keys "C" "D" "Backspace" "3" (env_at 1) (env_at 2) (env_at 3)
                      (env_at 4) (env_at 5)) initial).
  reflexivity.
Defined.

Lemma handleLine_open (line : jsstring) (env : Env) (st : State) :
  listening st = true ->
  tags (handleLine line env st)
  = addTag (autoDedup st) (cleaned line) None env (tags st).
Proof.
  intros Hl. unfold handleLine. rewrite Hl. cbn [negb].
  destruct (truthy (cleaned line)) eqn:E; [reflexivity|].
  rewrite addTag_cases, cleaned_trim, E. reflexivity.
Qed.

(** The clear button empties the buffer whether capture is on or paused
    and touches nothing else; deduplication looks at the current buffer
    only, so a line scanned after a clear is stored even if its identifier
    was in the buffer before. *)
Theorem clear_then_rescan (line : jsstring) (env : Env) (st : State) :
  tags (clearTags st) = []
  /\ listening (clearTags st) = listening st
  /\ buffer (clearTags st) = buffer st
  /\ (listening st = true -> cleaned line <> [] ->
      tags (handleLine line env (clearTags st)) = [newTag (cleaned line) None env]).
Proof.
  split; [reflexivity|]. split; [reflexivity|]. split; [reflexivity|].
  intros Hl Hne. rewrite handleLine_open by exact Hl.
  change (tags (clearTags st)) with (@nil Tag).
  rewrite addTag_cases, cleaned_trim.
  replace (truthy (cleaned line)) with true by (symmetry; now apply truthy_nonempty).
  cbn [existsb]. rewrite andb_false_r. reflexivity.
Qed.

Lemma clear_then_rescan_witness :
  tags (handleLine (str "AB12") (env_at 9)
          (clearTags (keys (scan_keys "A" "B" "1" "2" (env_at 1) (env_at 2) (env_at 3)
                                      (env_at 4) (env_at 5)) initial)))
  = [newTag (str "AB12") None (env_at 9)].
Proof.
  destruct (clear_then_rescan (str "AB12") (env_at 9)
              (keys (scan_keys "A" "B" "1" "2" (env_at 1) (env_at 2) (env_at 3)
                               (env_at 4) (env_at 5)) initial)) as (_ & _ & _ & H).
  apply H; [reflexivity | discriminate].
Defined.

(** ** [exportCSV] *)

Lemma charset_not (x : char16) (e : jsstring) :
  in_charset x = false -> Forall (fun c => in_charset c = true) e -> ~ In x e.
Proof.
  intros Hx He Hin. rewrite Forall_forall in He. apply He in Hin. congruence.
Qed.

(** The rows exported after any session: the header, then one row per
    record of the buffer in buffer order, each made of the identifier, an
    empty [rssi] field and the date; the identifier holds no comma, line
    feed or double quote, so the first comma of a row ends it. *)
Theorem export_rows (Number_toString toISOString : Z -> jsstring)
        (evs : list Event) :
  csvRows Number_toString toISOString (tags (run evs initial))
  = str "epc,rssi,timestamp"
    :: map (fun t => epc t ++ str ",," ++ toISOString (ts t))
           (tags (run evs initial))
  /\ (length (csvRows Number_toString toISOString (tags (run evs initial)))
      <= 2001)%nat
  /\ Forall (fun t => ~ In 44%N (epc t) /\ ~ In 10%N (epc t) /\ ~ In 34%N (epc t))
            (tags (run evs initial)).
Proof.
  destruct (run_captured evs) as [Hlen Hform].
  split; [|split].
  - unfold csvRows. f_equal. apply map_ext_in. intros t Ht.
    rewrite Forall_forall in Hform. destruct (Hform t Ht) as (_ & _ & Hr).
    unfold csvRow. rewrite Hr. reflexivity.
  - unfold csvRows. cbn [length]. rewrite length_map. lia.
  - eapply Forall_impl; [|exact Hform]. intros t (_ & Hcs & _).
    repeat split; apply charset_not; (reflexivity || exact Hcs).
Qed.

Lemma join_line_feeds (parts : list jsstring) :
  Forall (fun p => ~ In 10%N p) parts ->
  count_occ N.eq_dec (join [10%N] parts) 10%N = pred (length parts).
Proof.
  induction 1 as [|p rest Hp Hrest IH]; [reflexivity|].
  destruct rest as [|q rest].
  - cbn [join length pred]. now apply count_occ_not_In.
  - change (join [10%N] (p :: q :: rest))
      with (p ++ [10%N] ++ join [10%N] (q :: rest)).
    rewrite !count_occ_app, IH.
    rewrite (proj1 (count_occ_not_In N.eq_dec p 10%N) Hp).
    reflexivity.
Qed.

(** With a date conversion that writes no line feed, the exported text
    after any session has exactly one line feed per record of the buffer:
    the header line and one line per record. *)
Theorem export_one_line_per_record (Number_toString toISOString : Z -> jsstring)
        (evs : list Event) :
  (forall t, ~ In 10%N (toISOString t)) ->
  count_occ N.eq_dec
            (csvText Number_toString toISOString (tags (run evs initial))) 10%N
  = length (tags (run evs initial)).
Proof.
  intros Hiso. destruct (run_captured evs) as [_ Hform].
  unfold csvText. rewrite join_line_feeds.
  - unfold csvRows. cbn [length pred]. apply length_map.
  - unfold csvRows. constructor.
    + intros Hin. vm_compute in Hin. repeat (destruct Hin as [Hin | Hin]; [discriminate Hin|]).
      exact Hin.
    + apply Forall_forall. intros row Hrow.
      apply in_map_iff in Hrow as (t & <- & Ht).
      rewrite Forall_forall in Hform. destruct (Hform t Ht) as (_ & Hcs & Hr).
      unfold csvRow. rewrite Hr. intros Hin.
      apply in_app_or in Hin as [Hin | Hin].
      * revert Hin. apply charset_not; [reflexivity | exact Hcs].
      * cbn [app str map list_ascii_of_string] in Hin.
        destruct Hin as [Hin | [Hin | Hin]]; try discriminate Hin.
        exact (Hiso _ Hin).
Qed.

Lemma export_one_line_per_record_witness :
  count_occ N.eq_dec
            (csvText sample_iso sample_iso (tags (run sample_session initial))) 10%N
  = length (tags (run sample_session initial)).
Proof.
  apply (export_one_line_per_record sample_iso sample_iso sample_session).
  intros t Hin. vm_compute in Hin.
  repeat (destruct Hin as [Hin | Hin]; [discriminate Hin|]). exact Hin.
Defined.

(** ** Deduplication and eviction *)

Lemma offer_all_unique (os : list Offer) :
  Forall (fun o => o_dedup o = true) os -> NoDup (map epc (offer_all os [])).
Proof.
  intros Hd.
  apply (offer_all_preserves (fun b => NoDup (map epc b))
                             (fun o => o_dedup o = true)); auto.
  - intros o prev. apply offer_unique.
  - constructor.
Qed.

(** Deduplication remembers only what is in the buffer.  With
    deduplication on throughout and the buffer full, an offer that stores a
    record drops the oldest one, and the identifier of that dropped record,
    offered next, is stored again as a new record in front. *)
Theorem evicted_identifier_is_forgotten (os : list Offer) (o : Offer)
        (r : option Z) (env : Env) (oldest : Tag) (kept : list Tag) :
  Forall (fun o => o_dedup o = true) os ->
  offer_all os [] = kept ++ [oldest] ->
  length (kept ++ [oldest]) = 2000%nat ->
  o_dedup o = true ->
  inserts o (kept ++ [oldest]) = true ->
  offer o (kept ++ [oldest])
  = newTag (trim (o_epcRaw o)) (o_rssi o) (o_env o) :: kept
  /\ addTag true (epc oldest) r env (offer o (kept ++ [oldest]))
     = firstn 2000 (newTag (epc oldest) r env
                      :: newTag (trim (o_epcRaw o)) (o_rssi o) (o_env o) :: kept).
Proof.
  intros Hd Hbuf Hlen Ho Hins.
  assert (Hu := offer_all_unique os Hd). rewrite Hbuf in Hu.
  assert (Hform := offer_all_stored_form os). rewrite Hbuf in Hform.
  assert (Hoffer : offer o (kept ++ [oldest])
                   = newTag (trim (o_epcRaw o)) (o_rssi o) (o_env o) :: kept).
  { rewrite offer_cases, Hins. rewrite (front_insert_full 1999) by exact Hlen.
    now rewrite removelast_last. }
  split; [exact Hoffer|]. rewrite Hoffer, addTag_cases.
  assert (Hold : stored_form oldest).
  { rewrite Forall_forall in Hform. apply Hform. apply in_or_app. right. now left. }
  destruct Hold as [Htrim Hne]. rewrite Htrim.
  replace (truthy (epc oldest)) with true by (symmetry; now apply truthy_nonempty).
  destruct (existsb (fun t => streq (epc t) (epc oldest))
                    (newTag (trim (o_epcRaw o)) (o_rssi o) (o_env o) :: kept)) eqn:E;
    [|reflexivity].
  exfalso. apply has_epc_spec in E. cbn [map epc newTag] in E.
  destruct E as [E | E].
  - unfold inserts in Hins. cbv zeta in Hins. rewrite Ho in Hins.
    apply andb_true_iff in Hins as [_ Hins]. apply negb_true_iff in Hins.
    cbn [andb] in Hins.
    assert (Hin : In (trim (o_epcRaw o)) (map epc (kept ++ [oldest]))).
    { rewrite E. apply in_map. apply in_or_app. right. now left. }
    apply has_epc_spec in Hin. congruence.
  - rewrite map_app in Hu. cbn [map] in Hu. apply NoDup_remove_2 in Hu.
    apply Hu. rewrite app_nil_r. exact E.
Qed.

Lemma evicted_identifier_is_forgotten_witness :
  addTag true [300%N] None (env_at 3000)
         (offer {| o_dedup := true; o_epcRaw := str "NEW";
                   o_rssi := None; o_env := env_at 2000 |}
                (offer_all distinct_offers []))
  = firstn 2000
      (newTag [300%N] None (env_at 3000)
         :: newTag (str "NEW") None (env_at 2000)
         :: removelast (offer_all distinct_offers [])).
Proof.
  destruct (evicted_identifier_is_forgotten
              distinct_offers
              {| o_dedup := true; o_epcRaw := str "NEW";
                 o_rssi := None; o_env := env_at 2000 |}
              None (env_at 3000)
              (newTag [300%N] None (env_at 0))
              (removelast (offer_all distinct_offers []))) as [_ H].
  - apply Forall_forall. intros o Ho. unfold distinct_offers in Ho.
    apply in_map_iff in Ho as (k & <- & _). reflexivity.
  - vm_compute. reflexivity.
  - vm_compute. reflexivity.
  - reflexivity.
  - vm_compute. reflexivity.
  - replace (offer_all distinct_offers [])
      with (removelast (offer_all distinct_offers []) ++ [newTag [300%N] None (env_at 0)])
      at 1 by (vm_compute; reflexivity).
    exact H.
Defined.
